(** * auto-label-merge-conflicts: the [run] function of [src/lib/main.ts]

    A shallow embedding of the action's single entry point.  [run] talks to
    GitHub (label query, pull-request query, two label mutations) and to the
    Actions runtime ([core.setFailed], [core.debug]).  The embedding makes
    every such call an event of a trace, takes the replies of GitHub from a
    [World], and keeps the JavaScript control flow: [try]/[catch] around each
    awaited request, the [while] loop of the poller, and the two
    [forEach (async ...)] passes whose promises nobody awaits. *)

From Stdlib Require Import List String Bool Arith PeanoNat NArith Lia Permutation.
Import ListNotations.
Open Scope string_scope.
Open Scope nat_scope.
Open Scope list_scope.

Set Implicit Arguments.

(** ** Data model *)

Module Interfaces.

(** Modelled from the spec: [./interfaces] (the declarations of
    [IGithubLabelNode] and [IGithubPRNode]) is not among the sources.  The
    spec's MergeabilityFact is one of Conflicting, Mergeable, Unknown; the
    source compares [node.mergeable] with ['CONFLICTING'] and ['MERGEABLE'],
    the third value is GitHub's ['UNKNOWN']. *)
Inductive MergeableState : Type :=
| CONFLICTING
| MERGEABLE
| UNKNOWN.

(** [label.node.id], [label.node.name] (the [node] level is flattened). *)
Record IGithubLabelNode : Type := mkLabel {
  label_id : string;
  label_name : string
}.

(** [pullrequest.node.id], [.number], [.mergeable], [.labels.edges]. *)
Record IGithubPRNode : Type := mkPR {
  pr_id : string;
  pr_number : nat;
  pr_mergeable : MergeableState;
  pr_labels : list IGithubLabelNode
}.

Definition MergeableState_eqb (a b : MergeableState) : bool :=
  match a, b with
  | CONFLICTING, CONFLICTING => true
  | MERGEABLE, MERGEABLE => true
  | UNKNOWN, UNKNOWN => true
  | _, _ => false
  end.

End Interfaces.
Export Interfaces.

(** ** Errors, events and replies *)

(** What a [catch] clause can receive: a rejected request, or the TypeError
    JavaScript raises on reading a property of [undefined]. *)
Inductive Error : Type :=
| TransportError
| TypeError_conflictLabel   (* conflictLabel.node with conflictLabel undefined *)
| TypeError_pullRequests.   (* pullRequests.filter with pullRequests undefined *)

(** The argument of [addLabelsToLabelable] and [removeLabelsFromLabelable]. *)
Record Mutation : Type := mkMutation {
  labelIds : string;
  labelableId : string
}.

(** The messages of [core.setFailed], one constructor per call site. *)
Inductive Failure : Type :=
| GetLabelsFailed (error : Error)
| LabelNotFound (name : string)
| GetPullRequestsFailed (error : Error)
| CannotDetermineMergeable
| AddLabelsFailed (error : Error)
| RemoveLabelsFailed (error : Error).

(** The messages of [core.debug], one constructor per call site. *)
Inductive Diagnostic : Type :=
| WaitingForMergeable (tries max : nat)
| SkipAlreadyLabeled (number : nat)
| Labeling (number : nat)
| Labeled (number : nat)
| NoConflicts
| SkipNotLabeled (number : nat)
| Unlabeling (number : nat)
| Unlabeled (number : nat)
| NoResolvedConflicts.

(** Everything [run] does that is visible outside of it, in program order. *)
Inductive Event : Type :=
| CallGetLabels (name : string)
| CallGetPullRequests
| CallWait (ms : N)
| CallAddLabels (m : Mutation)
| CallRemoveLabels (m : Mutation)
| CoreSetFailed (f : Failure)
| CoreDebug (d : Diagnostic).

Inductive Reply (A : Type) : Type :=
| Resolves (a : A)
| Rejects (error : Error).
Arguments Rejects {A} error.

(** The inputs of one run: the configured label name and GitHub's replies.
    The pull-request query is answered per call, numbered from 1; a mutation
    is answered by [None] (success) or [Some error].  The four request
    functions live in [./queries], which is not among the sources; they are
    taken as the spec's external interfaces: each call sends a request and
    returns a promise that settles with the reply. *)
Record World : Type := mkWorld {
  conflictLabelName : string;
  getLabels : Reply (list IGithubLabelNode);
  getPullRequests : nat -> Reply (list IGithubPRNode);
  addLabelsToLabelable : Mutation -> option Error;
  removeLabelsFromLabelable : Mutation -> option Error
}.

(** ** A trace-and-exception monad for the body of [run] *)

Inductive Completion (A : Type) : Type :=
| Returned (a : A)
| Thrown (error : Error)
| OutOfFuel.
Arguments Thrown {A} error.
Arguments OutOfFuel {A}.

Definition M (A : Type) : Type := (list Event * Completion A)%type.

Definition ret {A} (a : A) : M A := ([], Returned a).

Definition bind {A B} (m : M A) (k : A -> M B) : M B :=
  match m with
  | (t, Returned a) => let (t', c) := k a in (t ++ t', c)
  | (t, Thrown e) => (t, Thrown e)
  | (t, OutOfFuel) => (t, OutOfFuel)
  end.

Definition emit (e : Event) : M unit := ([e], Returned tt).
Definition throw {A} (e : Error) : M A := ([], Thrown e).

Declare Scope run_scope.
Delimit Scope run_scope with run.
Notation "x <- m ;; k" := (bind m (fun x => k))
  (at level 100, m at next level, right associativity) : run_scope.
Notation "m ;; k" := (bind m (fun _ => k))
  (at level 100, right associativity) : run_scope.
Open Scope run_scope.

Definition when (b : bool) (m : M unit) : M unit := if b then m else ret tt.

(** ** The label resolver (lines 24-47) *)

(** [edges.find(label => label.node.name === conflictLabelName)]. *)
Definition findLabelByName (name : string) (edges : list IGithubLabelNode)
  : option IGithubLabelNode :=
  find (fun label => String.eqb (label_name label) name) edges.

(** Lines 25-47: the value of [conflictLabel] after the resolver; [None] is
    JavaScript's [undefined]. *)
Definition resolveLabel (w : World) : M (option IGithubLabelNode) :=
  emit (CallGetLabels (conflictLabelName w)) ;;
  labelData <- match getLabels w with
               | Resolves edges => ret (Some edges)
               | Rejects error =>
                   emit (CoreSetFailed (GetLabelsFailed error)) ;; ret None
               end ;;
  match labelData with
  | Some edges =>
      let conflictLabel := findLabelByName (conflictLabelName w) edges in
      when (match conflictLabel with None => true | Some _ => false end)
           (emit (CoreSetFailed (LabelNotFound (conflictLabelName w)))) ;;
      ret conflictLabel
  | None => ret None
  end.

(** ** The mergeability poller (lines 49-82) *)

Definition maxRetries : nat := 60.
Definition waitMs : N := 60000%N.

Definition hasMergeable (s : MergeableState) (pullrequest : IGithubPRNode) : bool :=
  MergeableState_eqb (pr_mergeable pullrequest) s.

(** Modelled from the spec: [getPullrequestsWithoutMergeStatus] lives in
    [./util], which is not among the sources.  The spec has it "compute the
    subset of pull requests whose fact is Unknown".  On the [undefined]
    snapshot that a failed first fetch leaves behind it is taken to raise the
    TypeError that [pullRequests.filter] of line 85 raises on that value; had
    it returned an empty list instead, the loop would end there and line 85
    would raise the same error after the same trace. *)
Definition getPullrequestsWithoutMergeStatus
  (pullRequests : option (list IGithubPRNode)) : M (list IGithubPRNode) :=
  match pullRequests with
  | Some prs => ret (filter (hasMergeable UNKNOWN) prs)
  | None => throw TypeError_pullRequests
  end.

(** The variables the loop assigns. *)
Record PollState : Type := mkPoll {
  tries : nat;
  pullRequests : option (list IGithubPRNode);
  pullrequestsWithoutMergeStatus : list IGithubPRNode
}.

Definition pollStart : PollState := mkPoll 0 None [].

Definition nonEmpty {A} (l : list A) : bool := 0 <? List.length l.

(** Line 57-58: the condition of the [while]. *)
Definition pollAgain (maxRetries : nat) (st : PollState) : bool :=
  (nonEmpty (pullrequestsWithoutMergeStatus st) && (tries st <? maxRetries))
  || (tries st =? 0).

(** Lines 60-76: one iteration. *)
Definition pollOnce (maxRetries : nat) (waitMs : N) (w : World) (st : PollState)
  : M PollState :=
  let tries' := S (tries st) in
  when (nonEmpty (pullrequestsWithoutMergeStatus st))
       (emit (CoreDebug (WaitingForMergeable tries' maxRetries)) ;;
        emit (CallWait waitMs)) ;;
  emit CallGetPullRequests ;;
  prs <- match getPullRequests w tries' with
         | Resolves l => ret (Some l)
         | Rejects error =>
             emit (CoreSetFailed (GetPullRequestsFailed error)) ;;
             ret (pullRequests st)
         end ;;
  unknown <- getPullrequestsWithoutMergeStatus prs ;;
  ret (mkPoll tries' prs unknown).

(** Lines 56-77: the [while] loop; [fuel] bounds the number of iterations. *)
Fixpoint pollLoop (fuel maxRetries : nat) (waitMs : N) (w : World) (st : PollState)
  : M PollState :=
  if pollAgain maxRetries st
  then match fuel with
       | 0 => ([], OutOfFuel)
       | S fuel' =>
           st' <- pollOnce maxRetries waitMs w st ;;
           pollLoop fuel' maxRetries waitMs w st'
       end
  else ret st.

(** Lines 54-82: the loop from its initial state, then the give-up report. *)
Definition pollMergeability (fuel maxRetries : nat) (waitMs : N) (w : World)
  : M PollState :=
  st <- pollLoop fuel maxRetries waitMs w pollStart ;;
  when (nonEmpty (pullrequestsWithoutMergeStatus st))
       (emit (CoreSetFailed CannotDetermineMergeable)) ;;
  ret st.

(** ** The reconciler (lines 84-160) *)

(** What an [async] callback is waiting for when it suspends. *)
Inductive Awaited : Type :=
| AwaitAddLabels (number : nat) (m : Mutation)
| AwaitRemoveLabels (number : nat) (m : Mutation).

(** The promise an [async] callback hands back at the end of its synchronous
    part: already settled, or suspended at its [await]. *)
Inductive Promise : Type :=
| Fulfilled
| RejectedWith (error : Error)
| Suspended (a : Awaited).

(** [labels.edges.find(label => label.node.id === conflictLabel.node.id)]
    (lines 94-98 and 133-137).  The predicate reads [conflictLabel.node] once
    per edge it visits, so it raises on the first edge when [conflictLabel]
    is undefined and is never called on an empty list. *)
Fixpoint isAlreadyLabeled (conflictLabel : option IGithubLabelNode)
  (edges : list IGithubLabelNode) : Error + option IGithubLabelNode :=
  match edges with
  | [] => inr None
  | label :: rest =>
      match conflictLabel with
      | None => inl TypeError_conflictLabel
      | Some c =>
          if String.eqb (label_id label) (label_id c)
          then inr (Some label)
          else isAlreadyLabeled conflictLabel rest
      end
  end.

(** Lines 93-116: the callback of the label pass, up to its [await].  The
    argument object of [addLabelsToLabelable] is built inside the [try], so
    an undefined [conflictLabel] is caught there and reported. *)
Definition labelCallback (conflictLabel : option IGithubLabelNode)
  (pullrequest : IGithubPRNode) : list Event * Promise :=
  match isAlreadyLabeled conflictLabel (pr_labels pullrequest) with
  | inl error => ([], RejectedWith error)
  | inr (Some _) =>
      ([CoreDebug (SkipAlreadyLabeled (pr_number pullrequest))], Fulfilled)
  | inr None =>
      match conflictLabel with
      | Some c =>
          let m := mkMutation (label_id c) (pr_id pullrequest) in
          ([CoreDebug (Labeling (pr_number pullrequest)); CallAddLabels m],
           Suspended (AwaitAddLabels (pr_number pullrequest) m))
      | None =>
          ([CoreDebug (Labeling (pr_number pullrequest));
            CoreSetFailed (AddLabelsFailed TypeError_conflictLabel)],
           Fulfilled)
      end
  end.

(** Lines 132-155: the callback of the unlabel pass, up to its [await]. *)
Definition unlabelCallback (conflictLabel : option IGithubLabelNode)
  (pullrequest : IGithubPRNode) : list Event * Promise :=
  match isAlreadyLabeled conflictLabel (pr_labels pullrequest) with
  | inl error => ([], RejectedWith error)
  | inr None =>
      ([CoreDebug (SkipNotLabeled (pr_number pullrequest))], Fulfilled)
  | inr (Some _) =>
      match conflictLabel with
      | Some c =>
          let m := mkMutation (label_id c) (pr_id pullrequest) in
          ([CoreDebug (Unlabeling (pr_number pullrequest)); CallRemoveLabels m],
           Suspended (AwaitRemoveLabels (pr_number pullrequest) m))
      | None =>
          ([CoreDebug (Unlabeling (pr_number pullrequest));
            CoreSetFailed (RemoveLabelsFailed TypeError_conflictLabel)],
           Fulfilled)
      end
  end.

(** [array.forEach(async ...)]: the callbacks run one after the other, each
    up to its first [await]; [forEach] drops the promises, the model returns
    them so that they can be inspected. *)
Definition forEachAsync (callback : IGithubPRNode -> list Event * Promise)
  (prs : list IGithubPRNode) : M (list Promise) :=
  (flat_map (fun p => fst (callback p)) prs,
   Returned (map (fun p => snd (callback p)) prs)).

(** Lines 84-89 and 122-127: the two classified sets. *)
Definition pullrequestsWithConflicts (prs : list IGithubPRNode)
  : list IGithubPRNode :=
  filter (hasMergeable CONFLICTING) prs.

Definition pullrequestsWithConflictResolution (prs : list IGithubPRNode)
  : list IGithubPRNode :=
  filter (hasMergeable MERGEABLE) prs.

(** Lines 91-120. *)
Definition labelPass (conflictLabel : option IGithubLabelNode)
  (prs : list IGithubPRNode) : M (list Promise) :=
  if nonEmpty (pullrequestsWithConflicts prs)
  then forEachAsync (labelCallback conflictLabel) (pullrequestsWithConflicts prs)
  else emit (CoreDebug NoConflicts) ;; ret [].

(** Lines 129-160. *)
Definition unlabelPass (conflictLabel : option IGithubLabelNode)
  (prs : list IGithubPRNode) : M (list Promise) :=
  if nonEmpty (pullrequestsWithConflictResolution prs)
  then forEachAsync (unlabelCallback conflictLabel)
                    (pullrequestsWithConflictResolution prs)
  else emit (CoreDebug NoResolvedConflicts) ;; ret [].

(** Both passes over one snapshot. *)
Definition reconcile (conflictLabel : option IGithubLabelNode)
  (prs : list IGithubPRNode) : M (list Promise) :=
  labelPromises <- labelPass conflictLabel prs ;;
  unlabelPromises <- unlabelPass conflictLabel prs ;;
  ret (labelPromises ++ unlabelPromises).

(** ** [run] *)

(** Line 85 calls [pullRequests.filter]; on an undefined snapshot that is a
    TypeError, outside of every [try]. *)
Definition snapshotOf (st : PollState) : M (list IGithubPRNode) :=
  match pullRequests st with
  | Some prs => ret prs
  | None => throw TypeError_pullRequests
  end.

(** The whole of [run] with its two constants as parameters.  The value it
    returns is the list of promises the two [forEach] calls dropped. *)
Definition runWith (maxRetries : nat) (waitMs : N) (w : World)
  : M (list Promise) :=
  conflictLabel <- resolveLabel w ;;
  st <- pollMergeability (S maxRetries) maxRetries waitMs w ;;
  prs <- snapshotOf st ;;
  reconcile conflictLabel prs.

Definition run (w : World) : M (list Promise) := runWith maxRetries waitMs w.

(** ** After [run] has returned *)

(** The rest of a suspended callback, run when its request settles
    (lines 111-114 and 150-153).  A callback resumes from its [await] only
    after the code that is running has finished, and [run] has no [await]
    of its own after the two [forEach] calls: every callback resumes after
    [run] has returned. *)
Definition settle (w : World) (a : Awaited) : list Event :=
  match a with
  | AwaitAddLabels number m =>
      match addLabelsToLabelable w m with
      | None => [CoreDebug (Labeled number)]
      | Some error => [CoreSetFailed (AddLabelsFailed error)]
      end
  | AwaitRemoveLabels number m =>
      match removeLabelsFromLabelable w m with
      | None => [CoreDebug (Unlabeled number)]
      | Some error => [CoreSetFailed (RemoveLabelsFailed error)]
      end
  end.

(** The requests still in flight among a list of promises. *)
Definition inFlight (promises : list Promise) : list Awaited :=
  flat_map (fun p => match p with Suspended a => [a] | _ => [] end) promises.

(** The callbacks that ended in an exception nobody catches. *)
Definition unhandledRejections (promises : list Promise) : list Error :=
  flat_map (fun p => match p with RejectedWith e => [e] | _ => [] end) promises.

(** ** Observations on traces *)

Definition isMutation (e : Event) : bool :=
  match e with
  | CallAddLabels _ | CallRemoveLabels _ => true
  | _ => false
  end.

Definition isSetFailed (e : Event) : bool :=
  match e with CoreSetFailed _ => true | _ => false end.

Definition isFetch (e : Event) : bool :=
  match e with CallGetPullRequests => true | _ => false end.

(** The add and remove requests of a trace, in the order they were sent. *)
Definition mutations (t : list Event) : list Event := filter isMutation t.

(** [core.setFailed] was called: the run is marked failed. *)
Definition markedFailed (t : list Event) : bool := existsb isSetFailed t.

(** The number of pull-request queries sent. *)
Definition fetchCount (t : list Event) : nat := List.length (filter isFetch t).

(** The trace of the whole process: [run] up to its return, then the
    suspended callbacks as their requests settle, in the given order. *)
Definition processTrace (w : World) (r : M (list Promise))
  (order : list Awaited) : list Event :=
  fst r ++ flat_map (settle w) order.

(** ** The end-to-end scenario of the spec *)

Module Scenario.

Definition ConflictLabel : IGithubLabelNode := mkLabel "L1" "has conflicts".
Definition OldLabel : IGithubLabelNode := mkLabel "L2" "has-conflicts-old".

Definition pr1 : IGithubPRNode := mkPR "1" 1 CONFLICTING [].
Definition pr2 : IGithubPRNode := mkPR "2" 2 MERGEABLE [ConflictLabel].
Definition pr3 : IGithubPRNode := mkPR "3" 3 CONFLICTING [ConflictLabel].

Definition world : World :=
  mkWorld "has conflicts"
          (Resolves [ConflictLabel; OldLabel])
          (fun _ => Resolves [pr1; pr2; pr3])
          (fun _ => None)
          (fun _ => None).

(** A pull request whose fact never resolves. *)
Definition stuck : IGithubPRNode := mkPR "4" 4 UNKNOWN [ConflictLabel].

Definition stuckWorld : World :=
  mkWorld "has conflicts"
          (Resolves [ConflictLabel; OldLabel])
          (fun _ => Resolves [stuck; pr1])
          (fun _ => None)
          (fun _ => None).

(** The repository only has the near match of the label. *)
Definition noLabelWorld : World :=
  mkWorld "has conflicts"
          (Resolves [OldLabel])
          (fun _ => Resolves [pr1; pr2; pr3])
          (fun _ => None)
          (fun _ => None).

(** The second pull-request query fails, the third resolves everything. *)
Definition flakyWorld : World :=
  mkWorld "has conflicts"
          (Resolves [ConflictLabel; OldLabel])
          (fun k => match k with
                    | 1 => Resolves [stuck; pr1]
                    | 2 => Rejects TransportError
                    | _ => Resolves [pr1]
                    end)
          (fun _ => None)
          (fun _ => None).

(** Two pull requests to label; the request for the first one fails. *)
Definition pr5 : IGithubPRNode := mkPR "5" 5 CONFLICTING [OldLabel].

Definition failingAddWorld : World :=
  mkWorld "has conflicts"
          (Resolves [ConflictLabel; OldLabel])
          (fun _ => Resolves [pr1; pr5])
          (fun m => if String.eqb (labelableId m) "1"
                    then Some TransportError else None)
          (fun _ => None).

End Scenario.

(** ** Notions the properties are stated with *)

(** The label [run] works with, as a function of the world. *)
Definition conflictLabelOf (w : World) : option IGithubLabelNode :=
  match getLabels w with
  | Resolves edges => findLabelByName (conflictLabelName w) edges
  | Rejects _ => None
  end.

(** The snapshot the loop holds after [k] queries: the reply to the latest
    query that did not fail. *)
Fixpoint snapshotAfter (w : World) (k : nat) : option (list IGithubPRNode) :=
  match k with
  | 0 => None
  | S k' =>
      match getPullRequests w (S k') with
      | Resolves l => Some l
      | Rejects _ => snapshotAfter w k'
      end
  end.

Definition unknownAfter (w : World) (k : nat) : list IGithubPRNode :=
  match snapshotAfter w k with
  | Some l => filter (hasMergeable UNKNOWN) l
  | None => []
  end.

(** The loop invariant: the state agrees with the replies so far. *)
Definition pollInv (w : World) (st : PollState) : Prop :=
  pullRequests st = snapshotAfter w (tries st) /\
  pullrequestsWithoutMergeStatus st = unknownAfter w (tries st).

(** What the loop has done when it is left, started in a state [st] that
    agrees with the replies: it sent [n] queries, every failed one was
    reported, every iteration but the first was entered with unresolved pull
    requests and budget left, and it ends in a state where the condition is
    false, or with the TypeError on a snapshot that never arrived. *)
Definition pollLoopPost (max : nat) (w : World) (st : PollState)
  (r : M PollState) : Prop :=
  let n := fetchCount (fst r) in
  mutations (fst r) = [] /\
  (forall k e, tries st < k <= tries st + n ->
               getPullRequests w k = Rejects e ->
               In (CoreSetFailed (GetPullRequestsFailed e)) (fst r)) /\
  (forall k, tries st <= k < tries st + n ->
             k = 0 \/ (unknownAfter w k <> [] /\ k < max)) /\
  match snd r with
  | Returned st' =>
      pollInv w st' /\ tries st' = tries st + n /\ pollAgain max st' = false
  | Thrown e =>
      e = TypeError_pullRequests /\ snapshotAfter w (tries st + n) = None
  | OutOfFuel => False
  end.

(** The poller as [run] uses it, in terms of the replies alone. *)
Definition pollerPost (max : nat) (w : World) (r : M PollState) : Prop :=
  let n := fetchCount (fst r) in
  1 <= n /\
  (forall k, 1 <= k < n -> unknownAfter w k <> [] /\ k < max) /\
  match snd r with
  | Returned st =>
      tries st = n /\
      pullRequests st = snapshotAfter w n /\
      pullrequestsWithoutMergeStatus st = unknownAfter w n /\
      (unknownAfter w n = [] \/ max <= n)
  | Thrown e =>
      e = TypeError_pullRequests /\ n = 1 /\
      exists error, getPullRequests w 1 = Rejects error
  | OutOfFuel => False
  end.

(** [isAlreadyLabeled] as a yes/no answer, for a label that was found. *)
Definition labelled (c : IGithubLabelNode) (p : IGithubPRNode) : bool :=
  existsb (fun l => String.eqb (label_id l) (label_id c)) (pr_labels p).

(** The pull requests the two passes send a request for. *)
Definition needsLabel (c : IGithubLabelNode) (p : IGithubPRNode) : bool :=
  hasMergeable CONFLICTING p && negb (labelled c p).

Definition needsUnlabel (c : IGithubLabelNode) (p : IGithubPRNode) : bool :=
  hasMergeable MERGEABLE p && labelled c p.

Definition addFor (c : IGithubLabelNode) (p : IGithubPRNode) : Mutation :=
  mkMutation (label_id c) (pr_id p).

(** The snapshot the reconciler of [runWith] works on, if the poller
    delivers one. *)
Definition finalSnapshotWith (max : nat) (ms : N) (w : World)
  : option (list IGithubPRNode) :=
  match snd (pollMergeability (S max) max ms w) with
  | Returned st => pullRequests st
  | _ => None
  end.

Definition finalSnapshot (w : World) : option (list IGithubPRNode) :=
  finalSnapshotWith maxRetries waitMs w.

(** GitHub's side of the two mutations, for one label and one pull request:
    a request that goes through applies the label or takes it off. *)
Definition isAddFor (labelId prId : string) (e : Event) : bool :=
  match e with
  | CallAddLabels m =>
      String.eqb (labelIds m) labelId && String.eqb (labelableId m) prId
  | _ => false
  end.

Definition isRemoveFor (labelId prId : string) (e : Event) : bool :=
  match e with
  | CallRemoveLabels m =>
      String.eqb (labelIds m) labelId && String.eqb (labelableId m) prId
  | _ => false
  end.

Definition applyMutation (labelId prId : string) (applied : bool) (e : Event)
  : bool :=
  if isAddFor labelId prId e then true
  else if isRemoveFor labelId prId e then false
  else applied.

(** Whether label [c] is on pull request [p] once every request of the trace
    [t] has gone through, starting from the labels [p] was fetched with. *)
Definition labelAppliedAfter (c : IGithubLabelNode) (t : list Event)
  (p : IGithubPRNode) : bool :=
  fold_left (applyMutation (label_id c) (pr_id p)) t (labelled c p).

(** Some add or remove request of the trace names the pull request. *)
Definition touched (t : list Event) (p : IGithubPRNode) : bool :=
  existsb (fun e => match e with
                    | CallAddLabels m | CallRemoveLabels m =>
                        String.eqb (labelableId m) (pr_id p)
                    | _ => false
                    end) t.

(** Convergence with all three equivalences, as section 8 of the spec words
    it. *)
Definition Converged (c : IGithubLabelNode) (t : list Event)
  (p : IGithubPRNode) : Prop :=
  (labelAppliedAfter c t p = true <-> pr_mergeable p = CONFLICTING) /\
  (labelAppliedAfter c t p = false <-> pr_mergeable p = MERGEABLE) /\
  (touched t p = false <-> pr_mergeable p = UNKNOWN).

(** A later snapshot of the same pull requests: same identifiers and facts,
    and the label state the requests of the trace [t] have produced. *)
Definition Refetched (c : IGithubLabelNode) (t : list Event)
  (prs prs' : list IGithubPRNode) : Prop :=
  Forall2 (fun p p' =>
             pr_id p' = pr_id p /\
             pr_mergeable p' = pr_mergeable p /\
             labelled c p' = labelAppliedAfter c t p) prs prs'.

Definition isFetchFailure (e : Event) : bool :=
  match e with
  | CoreSetFailed (GetLabelsFailed _)
  | CoreSetFailed (GetPullRequestsFailed _) => true
  | _ => false
  end.

Definition isLabelNotFound (e : Event) : bool :=
  match e with
  | CoreSetFailed (LabelNotFound _) => true
  | _ => false
  end.

(** The run ends with the report selected by [report]: nothing is done once
    it is made. *)
Definition abortsOn (report : Event -> bool) (t : list Event) : Prop :=
  forall before e after,
    t = before ++ e :: after -> report e = true -> after = [].

(** No add or remove request follows a report selected by [report]. *)
Definition noMutationAfter (report : Event -> bool) (t : list Event) : Prop :=
  forall before e after,
    t = before ++ e :: after -> report e = true -> mutations after = [].

(** The request a suspended callback waits for fails. *)
Definition settleFails (w : World) (a : Awaited) : bool :=
  match a with
  | AwaitAddLabels _ m =>
      match addLabelsToLabelable w m with Some _ => true | None => false end
  | AwaitRemoveLabels _ m =>
      match removeLabelsFromLabelable w m with Some _ => true | None => false end
  end.

(** The request a suspended callback has sent. *)
Definition requestOf (a : Awaited) : Event :=
  match a with
  | AwaitAddLabels _ m => CallAddLabels m
  | AwaitRemoveLabels _ m => CallRemoveLabels m
  end.

(** What a callback logs when its request has gone through. *)
Definition doneOf (a : Awaited) : Event :=
  match a with
  | AwaitAddLabels number _ => CoreDebug (Labeled number)
  | AwaitRemoveLabels number _ => CoreDebug (Unlabeled number)
  end.

(** The same world with other replies to the mutations. *)
Definition withMutationReplies (w : World)
  (add remove : Mutation -> option Error) : World :=
  mkWorld (conflictLabelName w) (getLabels w) (getPullRequests w) add remove.

(** The requests of two reconciliations in a row, the first over [prs], the
    second over [prs']. *)
Definition reconcileAgain (conflictLabel : option IGithubLabelNode)
  (prs prs' : list IGithubPRNode) : list Event * list Event :=
  (mutations (fst (reconcile conflictLabel prs)),
   mutations (fst (reconcile conflictLabel prs'))).

(** ** Notions for the shape of a trace *)

Definition isWait (e : Event) : bool :=
  match e with CallWait _ => true | _ => false end.

Definition isLabelQuery (e : Event) : bool :=
  match e with CallGetLabels _ => true | _ => false end.

Definition isGiveUp (e : Event) : bool :=
  match e with CoreSetFailed CannotDetermineMergeable => true | _ => false end.

(** The events lines 24-47 can produce. *)
Definition resolveEvent (e : Event) : bool :=
  match e with
  | CallGetLabels _
  | CoreSetFailed (GetLabelsFailed _)
  | CoreSetFailed (LabelNotFound _) => true
  | _ => false
  end.

(** The events the loop of lines 56-77 can produce. *)
Definition pollEvent (e : Event) : bool :=
  match e with
  | CallGetPullRequests
  | CallWait _
  | CoreDebug (WaitingForMergeable _ _)
  | CoreSetFailed (GetPullRequestsFailed _) => true
  | _ => false
  end.

(** The events lines 84-160 can produce before [run] returns. *)
Definition reconcileEvent (e : Event) : bool :=
  match e with
  | CallAddLabels _
  | CallRemoveLabels _
  | CoreDebug (SkipAlreadyLabeled _)
  | CoreDebug (Labeling _)
  | CoreDebug NoConflicts
  | CoreDebug (SkipNotLabeled _)
  | CoreDebug (Unlabeling _)
  | CoreDebug NoResolvedConflicts
  | CoreSetFailed (AddLabelsFailed TypeError_conflictLabel)
  | CoreSetFailed (RemoveLabelsFailed TypeError_conflictLabel) => true
  | _ => false
  end.

(** The pull requests the add and remove requests of a trace name, in the
    order of the requests. *)
Definition targets (t : list Event) : list string :=
  flat_map (fun e => match e with
                     | CallAddLabels m | CallRemoveLabels m => [labelableId m]
                     | _ => []
                     end) t.

(** A pull request both passes look at the labels of. *)
Definition knownWithLabels (p : IGithubPRNode) : bool :=
  negb (hasMergeable UNKNOWN p) && nonEmpty (pr_labels p).

(** The requests [run] is to send for a label and a snapshot: the adds of
    the label pass, then the removes of the unlabel pass. *)
Definition expectedRequests (c : IGithubLabelNode) (prs : list IGithubPRNode)
  : list Event :=
  map (fun p => CallAddLabels (addFor c p)) (filter (needsLabel c) prs) ++
  map (fun p => CallRemoveLabels (addFor c p)) (filter (needsUnlabel c) prs).

(** Every wait of the trace is directly followed by a pull-request query. *)
Definition waitsLeadToQuery (t : list Event) : Prop :=
  forall before e after,
    t = before ++ e :: after -> isWait e = true ->
    exists after', after = CallGetPullRequests :: after'.

(** A world whose pull-request queries all fail. *)
Definition unreachableWorld : World :=
  mkWorld "has conflicts"
          (Resolves [Scenario.ConflictLabel; Scenario.OldLabel])
          (fun _ => Rejects TransportError)
          (fun _ => None)
          (fun _ => None).

(** * Properties *)

Unset Implicit Arguments.

(** ** The monad *)

Lemma bind_unfold {A B} (m : M A) (k : A -> M B) :
  bind m k =
  match snd m with
  | Returned a => (fst m ++ fst (k a), snd (k a))
  | Thrown e => (fst m, Thrown e)
  | OutOfFuel => (fst m, OutOfFuel)
  end.
Proof.
  destruct m as [t [a | e | ]]; simpl; try reflexivity.
  destruct (k a); reflexivity.
Qed.

Lemma when_unfold (b : bool) (m : M unit) :
  when b m = if b then m else ([], Returned tt).
Proof. reflexivity. Qed.

Lemma mutations_app (t1 t2 : list Event) :
  mutations (t1 ++ t2) = mutations t1 ++ mutations t2.
Proof. apply filter_app. Qed.

Lemma fetchCount_app (t1 t2 : list Event) :
  fetchCount (t1 ++ t2) = fetchCount t1 + fetchCount t2.
Proof. unfold fetchCount. rewrite filter_app. apply length_app. Qed.

Lemma markedFailed_app (t1 t2 : list Event) :
  markedFailed (t1 ++ t2) = markedFailed t1 || markedFailed t2.
Proof. apply existsb_app. Qed.

Lemma markedFailed_In (t : list Event) (f : Failure) :
  In (CoreSetFailed f) t -> markedFailed t = true.
Proof.
  intros H. apply existsb_exists. exists (CoreSetFailed f). split; [exact H | reflexivity].
Qed.

Lemma nonEmpty_false {A} (l : list A) : nonEmpty l = false <-> l = [].
Proof.
  unfold nonEmpty. destruct l; simpl; split; intros H; try reflexivity; discriminate.
Qed.

Lemma nonEmpty_true {A} (l : list A) : nonEmpty l = true <-> l <> [].
Proof.
  unfold nonEmpty. destruct l; simpl; split; intros H; try reflexivity;
    try discriminate; congruence.
Qed.

(** ** The resolver *)

Lemma resolveLabel_returns (w : World) :
  snd (resolveLabel w) = Returned (conflictLabelOf w).
Proof.
  unfold resolveLabel, conflictLabelOf.
  destruct (getLabels w) as [edges | e]; simpl; [ | reflexivity].
  destruct (findLabelByName (conflictLabelName w) edges); reflexivity.
Qed.

Lemma resolveLabel_no_mutation (w : World) :
  mutations (fst (resolveLabel w)) = [].
Proof.
  unfold resolveLabel.
  destruct (getLabels w) as [edges | e]; simpl; [ | reflexivity].
  destruct (findLabelByName (conflictLabelName w) edges); reflexivity.
Qed.

Lemma resolveLabel_no_fetch (w : World) :
  fetchCount (fst (resolveLabel w)) = 0.
Proof.
  unfold resolveLabel.
  destruct (getLabels w) as [edges | e]; simpl; [ | reflexivity].
  destruct (findLabelByName (conflictLabelName w) edges); reflexivity.
Qed.

Lemma findLabelByName_None (name : string) (edges : list IGithubLabelNode) :
  findLabelByName name edges = None <->
  (forall l, In l edges -> label_name l <> name).
Proof.
  unfold findLabelByName. split.
  - intros H l Hin Heq.
    pose proof (find_none _ _ H l Hin) as Hf. simpl in Hf.
    apply String.eqb_neq in Hf. contradiction.
  - intros H. induction edges as [ | x xs IH]; simpl; [reflexivity | ].
    destruct (String.eqb (label_name x) name) eqn:E.
    + apply String.eqb_eq in E. exfalso. apply (H x); [left; reflexivity | exact E].
    + apply IH. intros l Hl. apply H. right. exact Hl.
Qed.

Lemma findLabelByName_first (name : string) (edges : list IGithubLabelNode)
  (l : IGithubLabelNode) :
  findLabelByName name edges = Some l <->
  exists before after,
    edges = before ++ l :: after /\ label_name l = name /\
    Forall (fun x => label_name x <> name) before.
Proof.
  unfold findLabelByName. split.
  - induction edges as [ | x xs IH]; simpl; [discriminate | ].
    destruct (String.eqb (label_name x) name) eqn:E.
    + intros H. injection H as ->. apply String.eqb_eq in E.
      exists [], xs. repeat split; [exact E | constructor].
    + intros H. destruct (IH H) as (b & a & -> & Hn & Hb).
      exists (x :: b), a. repeat split; [exact Hn | ].
      constructor; [ | exact Hb]. apply String.eqb_neq. exact E.
  - intros (b & a & -> & Hn & Hb).
    induction Hb as [ | x b Hx Hb IH]; simpl.
    + apply String.eqb_eq in Hn. rewrite Hn. reflexivity.
    + apply String.eqb_neq in Hx. rewrite Hx. exact IH.
Qed.

(** ** The poller *)

Lemma pollInv_start (w : World) : pollInv w pollStart.
Proof. split; reflexivity. Qed.

Lemma pollOnce_trace (max : nat) (ms : N) (w : World) (st : PollState) :
  let t := fst (pollOnce max ms w st) in
  fetchCount t = 1 /\ mutations t = [] /\
  (forall e, getPullRequests w (S (tries st)) = Rejects e ->
             In (CoreSetFailed (GetPullRequestsFailed e)) t).
Proof.
  unfold pollOnce.
  destruct (nonEmpty (pullrequestsWithoutMergeStatus st));
    destruct (getPullRequests w (S (tries st))) as [l | e] eqn:E; simpl;
    try (repeat split; try reflexivity; intros e0 He0; discriminate He0).
  - destruct (pullRequests st); simpl;
      (repeat split; try reflexivity; intros e0 He0; injection He0 as <-;
       simpl; tauto).
  - destruct (pullRequests st); simpl;
      (repeat split; try reflexivity; intros e0 He0; injection He0 as <-;
       simpl; tauto).
Qed.

Lemma pollOnce_result (max : nat) (ms : N) (w : World) (st : PollState) :
  pollInv w st ->
  snd (pollOnce max ms w st) =
  match snapshotAfter w (S (tries st)) with
  | Some l =>
      Returned (mkPoll (S (tries st)) (Some l) (filter (hasMergeable UNKNOWN) l))
  | None => Thrown TypeError_pullRequests
  end.
Proof.
  intros [Hp _]. unfold pollOnce. cbn [snapshotAfter].
  destruct (nonEmpty (pullrequestsWithoutMergeStatus st));
    destruct (getPullRequests w (S (tries st))) as [l | e]; simpl;
    try reflexivity;
    rewrite <- Hp; destruct (pullRequests st); reflexivity.
Qed.

Lemma pollAgain_true (max : nat) (w : World) (st : PollState) :
  pollInv w st -> pollAgain max st = true ->
  tries st = 0 \/ (unknownAfter w (tries st) <> [] /\ tries st < max).
Proof.
  intros [_ Hu] H. unfold pollAgain in H.
  apply orb_true_iff in H. destruct H as [H | H].
  - apply andb_true_iff in H. destruct H as [H1 H2]. right. split.
    + rewrite <- Hu. apply nonEmpty_true. exact H1.
    + apply Nat.ltb_lt. exact H2.
  - left. apply Nat.eqb_eq. exact H.
Qed.

Lemma pollLoop_spec (max : nat) (ms : N) (w : World) :
  forall fuel st,
    pollInv w st ->
    max - tries st <= fuel ->
    (tries st = 0 -> 1 <= fuel) ->
    pollLoopPost max w st (pollLoop fuel max ms w st).
Proof.
  induction fuel as [ | fuel IH]; intros st Hinv Hfuel Hfirst.
  - (* no fuel: the condition must be false *)
    cbn [pollLoop]. destruct (pollAgain max st) eqn:Hc.
    + exfalso. destruct (@pollAgain_true max w st Hinv Hc) as [H0 | [_ Hlt]]; [ | lia].
      specialize (Hfirst H0). lia.
    + unfold pollLoopPost; simpl. change (fetchCount []) with 0.
      repeat split; try apply Hinv; try assumption.
      all: intros; lia.
  - cbn [pollLoop]. destruct (pollAgain max st) eqn:Hc.
    + pose proof (@pollAgain_true max w st Hinv Hc) as Hgo.
      pose proof (pollOnce_trace max ms w st) as (Hf1 & Hm1 & He1).
      pose proof (@pollOnce_result max ms w st Hinv) as Hres.
      rewrite bind_unfold.
      destruct (snapshotAfter w (S (tries st))) as [l | ] eqn:Hsnap;
        rewrite Hres.
      * (* the iteration has a snapshot: go round again *)
        set (st' := mkPoll (S (tries st)) (Some l)
                           (filter (hasMergeable UNKNOWN) l)).
        assert (Hinv' : pollInv w st').
        { split; simpl; [symmetry; exact Hsnap | ].
          unfold unknownAfter. rewrite Hsnap. reflexivity. }
        assert (Hfuel' : max - tries st' <= fuel) by (simpl; lia).
        assert (Hfirst' : tries st' = 0 -> 1 <= fuel) by (simpl; discriminate).
        specialize (IH st' Hinv' Hfuel' Hfirst').
        destruct IH as (Hm2 & He2 & Hk2 & Hend).
        unfold pollLoopPost. cbn [fst snd].
        rewrite mutations_app, fetchCount_app, Hf1, Hm1, Hm2.
        simpl tries in *.
        split; [reflexivity | ]. split; [ | split].
        -- intros k e Hk Hrej.
           destruct (Nat.eq_dec k (S (tries st))) as [-> | Hne].
           ++ apply in_or_app. left. apply He1. exact Hrej.
           ++ apply in_or_app. right. apply (He2 k e); [lia | exact Hrej].
        -- intros k Hk.
           destruct (Nat.eq_dec k (tries st)) as [-> | Hne];
             [exact Hgo | apply Hk2; lia].
        -- destruct (snd (pollLoop fuel max ms w st')) as [st'' | e | ].
           ++ destruct Hend as (Hi & Ht & Hstop).
              repeat split; try apply Hi; [lia | exact Hstop].
           ++ destruct Hend as (-> & Hnone). split; [reflexivity | ].
              replace (tries st + (1 + fetchCount (fst (pollLoop fuel max ms w st'))))
                with (S (tries st) + fetchCount (fst (pollLoop fuel max ms w st')))
                by lia.
              exact Hnone.
           ++ exact Hend.
      * (* the snapshot never arrived *)
        unfold pollLoopPost. cbn [fst snd]. rewrite Hf1, Hm1.
        split; [reflexivity | ]. split; [ | split; [ | split]].
        -- intros k e Hk Hrej. replace k with (S (tries st)) in Hrej by lia.
           apply He1. exact Hrej.
        -- intros k Hk. replace k with (tries st) by lia. exact Hgo.
        -- reflexivity.
        -- replace (tries st + 1) with (S (tries st)) by lia. exact Hsnap.
    + unfold pollLoopPost; simpl. change (fetchCount []) with 0.
      repeat split; try apply Hinv; try assumption.
      all: intros; lia.
Qed.

Lemma snapshotAfter_mono (w : World) (k : nat) (l : list IGithubPRNode) :
  snapshotAfter w k = Some l ->
  forall n, k <= n -> snapshotAfter w n <> None.
Proof.
  intros Hk n Hle. induction Hle as [ | n Hle IH].
  - rewrite Hk. discriminate.
  - cbn [snapshotAfter]. destruct (getPullRequests w (S n)); [discriminate | exact IH].
Qed.

Lemma unknownAfter_snapshot (w : World) (k : nat) :
  unknownAfter w k <> [] -> exists l, snapshotAfter w k = Some l.
Proof.
  unfold unknownAfter. destruct (snapshotAfter w k) as [l | ].
  - intros _. exists l. reflexivity.
  - intros H. contradiction H. reflexivity.
Qed.

Lemma pollMergeability_unfold (fuel max : nat) (ms : N) (w : World) :
  pollMergeability fuel max ms w =
  let r := pollLoop fuel max ms w pollStart in
  match snd r with
  | Returned st =>
      (fst r ++ (if nonEmpty (pullrequestsWithoutMergeStatus st)
                 then [CoreSetFailed CannotDetermineMergeable] else []),
       Returned st)
  | Thrown e => (fst r, Thrown e)
  | OutOfFuel => (fst r, OutOfFuel)
  end.
Proof.
  unfold pollMergeability. rewrite bind_unfold. cbv zeta.
  destruct (snd (pollLoop fuel max ms w pollStart)) as [st | e | ];
    try reflexivity.
  destruct (nonEmpty (pullrequestsWithoutMergeStatus st)); reflexivity.
Qed.

Lemma pollMergeability_fetchCount (fuel max : nat) (ms : N) (w : World) :
  fetchCount (fst (pollMergeability fuel max ms w)) =
  fetchCount (fst (pollLoop fuel max ms w pollStart)).
Proof.
  rewrite pollMergeability_unfold. cbv zeta.
  destruct (snd (pollLoop fuel max ms w pollStart)) as [st | e | ];
    try reflexivity.
  cbn [fst]. rewrite fetchCount_app.
  destruct (nonEmpty (pullrequestsWithoutMergeStatus st));
    [change (fetchCount [CoreSetFailed CannotDetermineMergeable]) with 0
    | change (fetchCount []) with 0]; lia.
Qed.

Lemma pollMergeability_snd (fuel max : nat) (ms : N) (w : World) :
  snd (pollMergeability fuel max ms w) = snd (pollLoop fuel max ms w pollStart).
Proof.
  rewrite pollMergeability_unfold. cbv zeta.
  destruct (snd (pollLoop fuel max ms w pollStart)); reflexivity.
Qed.

Lemma pollLoop_run_spec (max : nat) (ms : N) (w : World) :
  pollLoopPost max w pollStart (pollLoop (S max) max ms w pollStart).
Proof.
  apply pollLoop_spec.
  - apply pollInv_start.
  - simpl. lia.
  - intros _. lia.
Qed.

(** The first query is sent whatever the budget. *)
Lemma pollLoop_first_fetch (max : nat) (ms : N) (w : World) :
  1 <= fetchCount (fst (pollLoop (S max) max ms w pollStart)).
Proof.
  cbn [pollLoop].
  replace (pollAgain max pollStart) with true
    by (unfold pollAgain; cbn [tries pollStart Nat.eqb]; symmetry; apply orb_true_r).
  rewrite bind_unfold.
  pose proof (pollOnce_trace max ms w pollStart) as (Hf1 & _).
  destruct (snd (pollOnce max ms w pollStart)); cbn [fst];
    try rewrite fetchCount_app; rewrite Hf1; lia.
Qed.

Lemma pollMergeability_no_mutation (max : nat) (ms : N) (w : World) :
  mutations (fst (pollMergeability (S max) max ms w)) = [].
Proof.
  pose proof (pollLoop_run_spec max ms w) as (Hm & _).
  rewrite pollMergeability_unfold. cbv zeta.
  destruct (snd (pollLoop (S max) max ms w pollStart)) as [st | e | ];
    try exact Hm.
  cbn [fst]. rewrite mutations_app, Hm.
  destruct (nonEmpty (pullrequestsWithoutMergeStatus st)); reflexivity.
Qed.

Lemma pollMergeability_post (max : nat) (ms : N) (w : World) :
  pollerPost max w (pollMergeability (S max) max ms w).
Proof.
  pose proof (pollLoop_run_spec max ms w) as (_ & _ & Hk & Hend).
  unfold pollerPost.
  rewrite pollMergeability_fetchCount, pollMergeability_snd.
  set (r := pollLoop (S max) max ms w pollStart) in *.
  set (n := fetchCount (fst r)) in *.
  cbn [tries pollStart] in Hk, Hend. cbn [Nat.add] in Hk, Hend.
  assert (Hn : 1 <= n) by apply pollLoop_first_fetch.
  split; [exact Hn | ]. split.
  - intros k Hrange. destruct (Hk k) as [H0 | H]; [lia | lia | exact H].
  - destruct (snd r) as [st | e | ]; [ | | exact Hend].
    + destruct Hend as ([Hp Hu] & Ht & Hstop). rewrite Ht in Hp, Hu.
      repeat split; try assumption.
      unfold pollAgain in Hstop. apply orb_false_iff in Hstop.
      destruct Hstop as [Hstop _]. apply andb_false_iff in Hstop.
      destruct Hstop as [He | Hb].
      * left. rewrite <- Hu. apply nonEmpty_false. exact He.
      * right. apply Nat.ltb_ge in Hb. lia.
    + destruct Hend as (-> & Hnone). split; [reflexivity | ].
      assert (n = 1) as Hn1.
      { destruct (Nat.eq_dec n 1) as [E | E]; [exact E | exfalso].
        destruct (Hk 1) as [H0 | [Hu _]]; [lia | lia | ].
        destruct (@unknownAfter_snapshot w 1 Hu) as [l Hl].
        apply (@snapshotAfter_mono w 1 l Hl n); [lia | exact Hnone]. }
      split; [exact Hn1 | ]. rewrite Hn1 in Hnone. cbn in Hnone.
      destruct (getPullRequests w 1) as [l | error]; [discriminate | ].
      exists error. reflexivity.
Qed.

(** ** The reconciler *)

Lemma isAlreadyLabeled_found (c : IGithubLabelNode) (p : IGithubPRNode) :
  exists found,
    isAlreadyLabeled (Some c) (pr_labels p) = inr found /\
    (labelled c p = true <-> found <> None).
Proof.
  unfold labelled. induction (pr_labels p) as [ | l ls IH]; simpl.
  - exists None. split; [reflexivity | ]. split; [discriminate | congruence].
  - destruct (String.eqb (label_id l) (label_id c)); simpl.
    + exists (Some l). split; [reflexivity | ]. split; [discriminate | reflexivity].
    + exact IH.
Qed.

Lemma labelCallback_found (c : IGithubLabelNode) (p : IGithubPRNode) :
  labelCallback (Some c) p =
  if labelled c p
  then ([CoreDebug (SkipAlreadyLabeled (pr_number p))], Fulfilled)
  else ([CoreDebug (Labeling (pr_number p)); CallAddLabels (addFor c p)],
        Suspended (AwaitAddLabels (pr_number p) (addFor c p))).
Proof.
  unfold labelCallback.
  destruct (isAlreadyLabeled_found c p) as (found & -> & Hiff).
  destruct found as [l | ].
  - replace (labelled c p) with true; [reflexivity | ].
    symmetry. apply Hiff. discriminate.
  - destruct (labelled c p); [ | reflexivity].
    exfalso. apply Hiff; reflexivity.
Qed.

Lemma unlabelCallback_found (c : IGithubLabelNode) (p : IGithubPRNode) :
  unlabelCallback (Some c) p =
  if labelled c p
  then ([CoreDebug (Unlabeling (pr_number p)); CallRemoveLabels (addFor c p)],
        Suspended (AwaitRemoveLabels (pr_number p) (addFor c p)))
  else ([CoreDebug (SkipNotLabeled (pr_number p))], Fulfilled).
Proof.
  unfold unlabelCallback.
  destruct (isAlreadyLabeled_found c p) as (found & -> & Hiff).
  destruct found as [l | ].
  - replace (labelled c p) with true; [reflexivity | ].
    symmetry. apply Hiff. discriminate.
  - destruct (labelled c p); [ | reflexivity].
    exfalso. apply Hiff; reflexivity.
Qed.

(** Without a label no callback gets as far as sending a request. *)
Lemma labelCallback_undefined (p : IGithubPRNode) :
  mutations (fst (labelCallback None p)) = [] /\
  inFlight [snd (labelCallback None p)] = [].
Proof. unfold labelCallback. destruct (pr_labels p); split; reflexivity. Qed.

Lemma unlabelCallback_undefined (p : IGithubPRNode) :
  mutations (fst (unlabelCallback None p)) = [] /\
  inFlight [snd (unlabelCallback None p)] = [].
Proof. unfold unlabelCallback. destruct (pr_labels p); split; reflexivity. Qed.

Lemma reconcile_unfold (conflictLabel : option IGithubLabelNode)
  (prs : list IGithubPRNode) :
  reconcile conflictLabel prs =
  (fst (labelPass conflictLabel prs) ++ fst (unlabelPass conflictLabel prs),
   Returned
     (map (fun p => snd (labelCallback conflictLabel p))
          (pullrequestsWithConflicts prs) ++
      map (fun p => snd (unlabelCallback conflictLabel p))
          (pullrequestsWithConflictResolution prs))).
Proof.
  unfold reconcile, labelPass, unlabelPass.
  destruct (nonEmpty (pullrequestsWithConflicts prs)) eqn:E1;
    destruct (nonEmpty (pullrequestsWithConflictResolution prs)) eqn:E2;
    try (apply nonEmpty_false in E1; rewrite E1);
    try (apply nonEmpty_false in E2; rewrite E2);
    simpl; rewrite ?app_nil_r; reflexivity.
Qed.

Lemma labelPass_mutations (c : IGithubLabelNode) (prs : list IGithubPRNode) :
  mutations (fst (labelPass (Some c) prs)) =
  map (fun p => CallAddLabels (addFor c p)) (filter (needsLabel c) prs).
Proof.
  assert (H : mutations (flat_map (fun p => fst (labelCallback (Some c) p))
                                  (pullrequestsWithConflicts prs)) =
              map (fun p => CallAddLabels (addFor c p)) (filter (needsLabel c) prs)).
  { unfold pullrequestsWithConflicts, needsLabel.
    induction prs as [ | p prs IH]; [reflexivity | ].
    cbn [filter]. destruct (hasMergeable CONFLICTING p); cbn [andb]; [ | exact IH].
    cbn [flat_map]. rewrite mutations_app, IH, labelCallback_found.
    destruct (labelled c p); reflexivity. }
  unfold labelPass.
  destruct (nonEmpty (pullrequestsWithConflicts prs)) eqn:E; [exact H | ].
  apply nonEmpty_false in E. rewrite E in H. rewrite <- H. reflexivity.
Qed.

Lemma unlabelPass_mutations (c : IGithubLabelNode) (prs : list IGithubPRNode) :
  mutations (fst (unlabelPass (Some c) prs)) =
  map (fun p => CallRemoveLabels (addFor c p)) (filter (needsUnlabel c) prs).
Proof.
  assert (H : mutations (flat_map (fun p => fst (unlabelCallback (Some c) p))
                                  (pullrequestsWithConflictResolution prs)) =
              map (fun p => CallRemoveLabels (addFor c p))
                  (filter (needsUnlabel c) prs)).
  { unfold pullrequestsWithConflictResolution, needsUnlabel.
    induction prs as [ | p prs IH]; [reflexivity | ].
    cbn [filter]. destruct (hasMergeable MERGEABLE p); cbn [andb]; [ | exact IH].
    cbn [flat_map]. rewrite mutations_app, IH, unlabelCallback_found.
    destruct (labelled c p); reflexivity. }
  unfold unlabelPass.
  destruct (nonEmpty (pullrequestsWithConflictResolution prs)) eqn:E; [exact H | ].
  apply nonEmpty_false in E. rewrite E in H. rewrite <- H. reflexivity.
Qed.

(** The requests of a reconciliation, in the words of the spec: an add for
    every conflicting pull request that lacks the label, then a remove for
    every mergeable one that carries it. *)
Lemma reconcile_mutations (c : IGithubLabelNode) (prs : list IGithubPRNode) :
  mutations (fst (reconcile (Some c) prs)) =
  map (fun p => CallAddLabels (addFor c p)) (filter (needsLabel c) prs) ++
  map (fun p => CallRemoveLabels (addFor c p)) (filter (needsUnlabel c) prs).
Proof.
  rewrite reconcile_unfold. cbn [fst].
  rewrite mutations_app, labelPass_mutations, unlabelPass_mutations.
  reflexivity.
Qed.

Lemma reconcile_undefined_no_mutation (prs : list IGithubPRNode) :
  mutations (fst (reconcile None prs)) = [].
Proof.
  assert (H1 : forall l, mutations (flat_map (fun p => fst (labelCallback None p)) l) = []).
  { induction l as [ | p l IH]; [reflexivity | ].
    cbn [flat_map]. rewrite mutations_app, IH.
    rewrite (proj1 (labelCallback_undefined p)). reflexivity. }
  assert (H2 : forall l, mutations (flat_map (fun p => fst (unlabelCallback None p)) l) = []).
  { induction l as [ | p l IH]; [reflexivity | ].
    cbn [flat_map]. rewrite mutations_app, IH.
    rewrite (proj1 (unlabelCallback_undefined p)). reflexivity. }
  rewrite reconcile_unfold. cbn [fst]. rewrite mutations_app.
  unfold labelPass, unlabelPass.
  destruct (nonEmpty (pullrequestsWithConflicts prs));
    destruct (nonEmpty (pullrequestsWithConflictResolution prs));
    cbn [forEachAsync fst]; rewrite ?H1, ?H2; reflexivity.
Qed.

(** ** [run] as its three phases *)

Lemma runWith_unfold (max : nat) (ms : N) (w : World) :
  runWith max ms w =
  let r1 := resolveLabel w in
  let r2 := pollMergeability (S max) max ms w in
  match snd r2 with
  | Returned st =>
      match pullRequests st with
      | Some prs =>
          let r3 := reconcile (conflictLabelOf w) prs in
          (fst r1 ++ fst r2 ++ fst r3, snd r3)
      | None => (fst r1 ++ fst r2, Thrown TypeError_pullRequests)
      end
  | Thrown e => (fst r1 ++ fst r2, Thrown e)
  | OutOfFuel => (fst r1 ++ fst r2, OutOfFuel)
  end.
Proof.
  unfold runWith. rewrite bind_unfold, resolveLabel_returns.
  rewrite bind_unfold. cbv zeta.
  destruct (snd (pollMergeability (S max) max ms w)) as [st | e | ];
    cbn [fst snd]; try reflexivity.
  rewrite bind_unfold. unfold snapshotOf.
  destruct (pullRequests st) as [prs | ]; cbn [fst snd ret throw].
  - rewrite app_nil_l. reflexivity.
  - rewrite app_nil_r. reflexivity.
Qed.

Lemma finalSnapshotWith_Some (max : nat) (ms : N) (w : World)
  (prs : list IGithubPRNode) :
  finalSnapshotWith max ms w = Some prs ->
  exists st, snd (pollMergeability (S max) max ms w) = Returned st /\
             pullRequests st = Some prs.
Proof.
  unfold finalSnapshotWith.
  destruct (snd (pollMergeability (S max) max ms w)) as [st | e | ];
    try discriminate.
  intros H. exists st. split; [reflexivity | exact H].
Qed.

Lemma runWith_reconciles (max : nat) (ms : N) (w : World)
  (prs : list IGithubPRNode) :
  finalSnapshotWith max ms w = Some prs ->
  runWith max ms w =
  (fst (resolveLabel w) ++ fst (pollMergeability (S max) max ms w) ++
   fst (reconcile (conflictLabelOf w) prs),
   snd (reconcile (conflictLabelOf w) prs)).
Proof.
  intros H. destruct (finalSnapshotWith_Some _ _ _ _ H) as (st & Hst & Hprs).
  rewrite runWith_unfold. cbv zeta. rewrite Hst, Hprs. reflexivity.
Qed.

Lemma runWith_mutations (max : nat) (ms : N) (w : World) :
  mutations (fst (runWith max ms w)) =
  match finalSnapshotWith max ms w with
  | Some prs => mutations (fst (reconcile (conflictLabelOf w) prs))
  | None => []
  end.
Proof.
  destruct (finalSnapshotWith max ms w) as [prs | ] eqn:H.
  - rewrite (runWith_reconciles _ _ _ _ H). cbn [fst].
    rewrite !mutations_app, resolveLabel_no_mutation,
      pollMergeability_no_mutation. reflexivity.
  - rewrite runWith_unfold. cbv zeta. unfold finalSnapshotWith in H.
    destruct (snd (pollMergeability (S max) max ms w)) as [st | e | ];
      [rewrite H | | ]; cbn [fst];
      rewrite !mutations_app, resolveLabel_no_mutation,
        pollMergeability_no_mutation; reflexivity.
Qed.

(** [run] always comes to an end. *)
Lemma runWith_terminates (max : nat) (ms : N) (w : World) :
  snd (runWith max ms w) <> OutOfFuel.
Proof.
  rewrite runWith_unfold. cbv zeta.
  pose proof (pollMergeability_post max ms w) as (_ & _ & Hend).
  destruct (snd (pollMergeability (S max) max ms w)) as [st | e | ];
    [ | discriminate | contradiction].
  destruct (pullRequests st); [ | discriminate].
  rewrite reconcile_unfold. discriminate.
Qed.

(** ** The label state after the requests *)

Lemma applyMutation_other (labelId prId : string) (b : bool) (e : Event) :
  isMutation e = false -> applyMutation labelId prId b e = b.
Proof. destruct e; simpl; intros H; try reflexivity; discriminate. Qed.

Lemma fold_applyMutation_mutations (labelId prId : string) (t : list Event) :
  forall b,
    fold_left (applyMutation labelId prId) t b =
    fold_left (applyMutation labelId prId) (mutations t) b.
Proof.
  induction t as [ | e t IH]; intros b; [reflexivity | ].
  cbn [fold_left mutations filter].
  destruct (isMutation e) eqn:E.
  - cbn [fold_left]. apply IH.
  - rewrite (applyMutation_other _ _ _ _ E). apply IH.
Qed.

Lemma fold_adds (c : IGithubLabelNode) (prId : string)
  (A : list IGithubPRNode) :
  forall b,
    fold_left (applyMutation (label_id c) prId)
              (map (fun q => CallAddLabels (addFor c q)) A) b =
    b || existsb (fun q => String.eqb (pr_id q) prId) A.
Proof.
  induction A as [ | q A IH]; intros b; simpl; [rewrite orb_false_r; reflexivity | ].
  rewrite IH. unfold applyMutation. simpl. rewrite String.eqb_refl. simpl.
  destruct (String.eqb (pr_id q) prId); simpl.
  - rewrite orb_true_r. reflexivity.
  - reflexivity.
Qed.

Lemma fold_removes (c : IGithubLabelNode) (prId : string)
  (R : list IGithubPRNode) :
  forall b,
    fold_left (applyMutation (label_id c) prId)
              (map (fun q => CallRemoveLabels (addFor c q)) R) b =
    b && negb (existsb (fun q => String.eqb (pr_id q) prId) R).
Proof.
  induction R as [ | q R IH]; intros b; simpl; [rewrite andb_true_r; reflexivity | ].
  rewrite IH. unfold applyMutation. simpl. rewrite String.eqb_refl. simpl.
  destruct (String.eqb (pr_id q) prId); simpl.
  - rewrite andb_false_r. reflexivity.
  - reflexivity.
Qed.

Lemma unique_id (prs : list IGithubPRNode) (p q : IGithubPRNode) :
  NoDup (map pr_id prs) -> In p prs -> In q prs -> pr_id q = pr_id p -> q = p.
Proof.
  induction prs as [ | x prs IH]; intros Hnd Hp Hq Hid; [contradiction | ].
  simpl in Hnd. inversion Hnd as [ | ? ? Hnotin Hnd']; subst.
  destruct Hp as [-> | Hp]; destruct Hq as [-> | Hq].
  - reflexivity.
  - exfalso. apply Hnotin. rewrite <- Hid. apply in_map. exact Hq.
  - exfalso. apply Hnotin. rewrite Hid. apply in_map. exact Hp.
  - apply IH; assumption.
Qed.

Lemma existsb_id_filter (f : IGithubPRNode -> bool)
  (prs : list IGithubPRNode) (p : IGithubPRNode) :
  NoDup (map pr_id prs) -> In p prs ->
  existsb (fun q => String.eqb (pr_id q) (pr_id p)) (filter f prs) = f p.
Proof.
  intros Hnd Hp. destruct (f p) eqn:E.
  - apply existsb_exists. exists p. split.
    + apply filter_In. split; assumption.
    + apply String.eqb_refl.
  - apply not_true_is_false. intros H. apply existsb_exists in H.
    destruct H as (q & Hq & Hid). apply filter_In in Hq. destruct Hq as [Hq Hf].
    apply String.eqb_eq in Hid.
    rewrite (unique_id _ _ _ Hnd Hp Hq Hid) in Hf. congruence.
Qed.

Lemma reconcile_after (c : IGithubLabelNode) (prs : list IGithubPRNode)
  (p : IGithubPRNode) :
  NoDup (map pr_id prs) -> In p prs ->
  labelAppliedAfter c (fst (reconcile (Some c) prs)) p =
  (labelled c p || needsLabel c p) && negb (needsUnlabel c p).
Proof.
  intros Hnd Hp. unfold labelAppliedAfter.
  rewrite fold_applyMutation_mutations, reconcile_mutations, fold_left_app.
  rewrite fold_adds, fold_removes.
  rewrite !existsb_id_filter by assumption. reflexivity.
Qed.

Lemma touched_mutations (t : list Event) (p : IGithubPRNode) :
  touched t p = touched (mutations t) p.
Proof.
  unfold touched. induction t as [ | e t IH]; [reflexivity | ].
  cbn [mutations filter existsb]. destruct e; simpl; rewrite IH; reflexivity.
Qed.

Lemma reconcile_touched (c : IGithubLabelNode) (prs : list IGithubPRNode)
  (p : IGithubPRNode) :
  NoDup (map pr_id prs) -> In p prs ->
  touched (fst (reconcile (Some c) prs)) p = needsLabel c p || needsUnlabel c p.
Proof.
  intros Hnd Hp. rewrite touched_mutations, reconcile_mutations.
  unfold touched. rewrite existsb_app.
  rewrite <- (existsb_id_filter (needsLabel c) _ _ Hnd Hp).
  rewrite <- (existsb_id_filter (needsUnlabel c) _ _ Hnd Hp).
  f_equal.
  - induction (filter (needsLabel c) prs) as [ | q l IH]; [reflexivity | ].
    simpl. rewrite IH. reflexivity.
  - induction (filter (needsUnlabel c) prs) as [ | q l IH]; [reflexivity | ].
    simpl. rewrite IH. reflexivity.
Qed.

Lemma labelAppliedAfter_run (max : nat) (ms : N) (w : World)
  (c : IGithubLabelNode) (prs : list IGithubPRNode) (p : IGithubPRNode) :
  conflictLabelOf w = Some c ->
  finalSnapshotWith max ms w = Some prs ->
  labelAppliedAfter c (fst (runWith max ms w)) p =
  labelAppliedAfter c (fst (reconcile (Some c) prs)) p /\
  touched (fst (runWith max ms w)) p = touched (fst (reconcile (Some c) prs)) p.
Proof.
  intros Hc Hs. unfold labelAppliedAfter.
  rewrite fold_applyMutation_mutations, touched_mutations, runWith_mutations.
  rewrite Hs, Hc.
  rewrite <- fold_applyMutation_mutations, <- touched_mutations.
  split; reflexivity.
Qed.

(** ** Convergence *)

Lemma run_after (w : World) (c : IGithubLabelNode)
  (prs : list IGithubPRNode) (p : IGithubPRNode) :
  conflictLabelOf w = Some c ->
  finalSnapshot w = Some prs ->
  NoDup (map pr_id prs) ->
  In p prs ->
  labelAppliedAfter c (fst (run w)) p =
    (labelled c p || needsLabel c p) && negb (needsUnlabel c p) /\
  touched (fst (run w)) p = needsLabel c p || needsUnlabel c p.
Proof.
  intros Hc Hs Hnd Hp.
  destruct (labelAppliedAfter_run maxRetries waitMs w c prs p Hc Hs) as [Ha Ht].
  unfold run. rewrite Ha, Ht.
  rewrite (reconcile_after c prs p Hnd Hp), (reconcile_touched c prs p Hnd Hp).
  split; reflexivity.
Qed.

(** C1, as the spec states it, fails: the three equivalences do not all hold
    for pull request 3 of the end-to-end scenario, which is conflicting,
    already labelled, and therefore left untouched without being Unknown. *)
Lemma convergence_fails_for_labelled_conflict :
  conflictLabelOf Scenario.world = Some Scenario.ConflictLabel /\
  finalSnapshot Scenario.world
    = Some [Scenario.pr1; Scenario.pr2; Scenario.pr3] /\
  ~ Converged Scenario.ConflictLabel (fst (run Scenario.world)) Scenario.pr3.
Proof.
  split; [reflexivity | ]. split; [reflexivity | ].
  intros (_ & _ & Huntouched).
  assert (H : touched (fst (run Scenario.world)) Scenario.pr3 = false)
    by (vm_compute; reflexivity).
  apply Huntouched in H. discriminate H.
Qed.

(** C1, amended: for every pull request [p] of the final snapshot of a run
    that found its conflict label [c] (identifiers distinct), once the
    requests of the run have gone through: when the fact of [p] is known,
    the label is applied iff the fact is Conflicting and absent iff it is
    Mergeable; when the fact is Unknown, no add or remove is sent for [p]
    and its label state stays as fetched.  A request is sent for [p] exactly
    when [p] is conflicting without the label or mergeable with it, so a
    pull request whose label already matches its fact is untouched too. *)
Theorem run_converges_on_known_facts (w : World) (c : IGithubLabelNode)
  (prs : list IGithubPRNode) (p : IGithubPRNode) :
  conflictLabelOf w = Some c ->
  finalSnapshot w = Some prs ->
  NoDup (map pr_id prs) ->
  In p prs ->
  let t := fst (run w) in
  (pr_mergeable p <> UNKNOWN ->
   (labelAppliedAfter c t p = true <-> pr_mergeable p = CONFLICTING) /\
   (labelAppliedAfter c t p = false <-> pr_mergeable p = MERGEABLE)) /\
  (pr_mergeable p = UNKNOWN ->
   touched t p = false /\ labelAppliedAfter c t p = labelled c p) /\
  (touched t p = true <->
   (pr_mergeable p = CONFLICTING /\ labelled c p = false) \/
   (pr_mergeable p = MERGEABLE /\ labelled c p = true)).
Proof.
  intros Hc Hs Hnd Hp t.
  destruct (run_after w c prs p Hc Hs Hnd Hp) as [Ha Ht].
  subst t. rewrite Ha, Ht. clear Ha Ht.
  unfold needsLabel, needsUnlabel, hasMergeable.
  destruct (pr_mergeable p); destruct (labelled c p); simpl;
    repeat split; try congruence; try tauto; intuition congruence.
Qed.

Lemma run_converges_on_known_facts_witness :
  let t := fst (run Scenario.world) in
  (labelAppliedAfter Scenario.ConflictLabel t Scenario.pr1 = true <->
   pr_mergeable Scenario.pr1 = CONFLICTING) /\
  (labelAppliedAfter Scenario.ConflictLabel t Scenario.pr1 = false <->
   pr_mergeable Scenario.pr1 = MERGEABLE).
Proof.
  assert (Hnd : NoDup (map pr_id [Scenario.pr1; Scenario.pr2; Scenario.pr3])).
  { repeat constructor; simpl; intuition discriminate. }
  refine (proj1 (run_converges_on_known_facts Scenario.world
                   Scenario.ConflictLabel
                   [Scenario.pr1; Scenario.pr2; Scenario.pr3] Scenario.pr1
                   eq_refl eq_refl Hnd (or_introl eq_refl)) _).
  simpl. discriminate.
Defined.

(** ** Unknown pull requests *)

Lemma pullrequestsWithConflicts_In (prs : list IGithubPRNode) (q : IGithubPRNode) :
  In q (pullrequestsWithConflicts prs) <->
  In q prs /\ pr_mergeable q = CONFLICTING.
Proof.
  unfold pullrequestsWithConflicts, hasMergeable. rewrite filter_In.
  destruct (pr_mergeable q); simpl; intuition congruence.
Qed.

Lemma pullrequestsWithConflictResolution_In (prs : list IGithubPRNode)
  (q : IGithubPRNode) :
  In q (pullrequestsWithConflictResolution prs) <->
  In q prs /\ pr_mergeable q = MERGEABLE.
Proof.
  unfold pullrequestsWithConflictResolution, hasMergeable. rewrite filter_In.
  destruct (pr_mergeable q); simpl; intuition congruence.
Qed.

(** C9: a pull request [p] of the final snapshot whose fact is still Unknown
    is in neither of the two classified sets the passes iterate over, no add
    or remove request of the run names it (identifiers distinct), and every
    pull request that is in one of the two sets has exactly one of the facts
    Conflicting and Mergeable. *)
Theorem unknown_left_out_of_both_passes (w : World)
  (prs : list IGithubPRNode) (p : IGithubPRNode) :
  finalSnapshot w = Some prs ->
  In p prs ->
  pr_mergeable p = UNKNOWN ->
  ~ In p (pullrequestsWithConflicts prs) /\
  ~ In p (pullrequestsWithConflictResolution prs) /\
  (NoDup (map pr_id prs) -> touched (fst (run w)) p = false) /\
  (forall q, In q (pullrequestsWithConflicts prs) ->
             pr_mergeable q = CONFLICTING /\ pr_mergeable q <> MERGEABLE) /\
  (forall q, In q (pullrequestsWithConflictResolution prs) ->
             pr_mergeable q = MERGEABLE /\ pr_mergeable q <> CONFLICTING).
Proof.
  intros Hs Hp Hu. repeat split.
  - rewrite pullrequestsWithConflicts_In. intros [_ H]. congruence.
  - rewrite pullrequestsWithConflictResolution_In. intros [_ H]. congruence.
  - intros Hnd. destruct (conflictLabelOf w) as [c | ] eqn:Hc.
    + destruct (run_after w c prs p Hc Hs Hnd Hp) as [_ Ht]. rewrite Ht.
      unfold needsLabel, needsUnlabel, hasMergeable. rewrite Hu. reflexivity.
    + rewrite touched_mutations. unfold run. rewrite runWith_mutations.
      fold (finalSnapshot w). rewrite Hs, Hc.
      rewrite reconcile_undefined_no_mutation. reflexivity.
  - apply pullrequestsWithConflicts_In in H. apply H.
  - apply pullrequestsWithConflicts_In in H. destruct H as [_ H]. congruence.
  - apply pullrequestsWithConflictResolution_In in H. apply H.
  - apply pullrequestsWithConflictResolution_In in H. destruct H as [_ H].
    congruence.
Qed.

Lemma unknown_left_out_of_both_passes_witness :
  ~ In Scenario.stuck (pullrequestsWithConflicts [Scenario.stuck; Scenario.pr1]) /\
  ~ In Scenario.stuck
       (pullrequestsWithConflictResolution [Scenario.stuck; Scenario.pr1]).
Proof.
  pose proof (unknown_left_out_of_both_passes Scenario.stuckWorld
                [Scenario.stuck; Scenario.pr1] Scenario.stuck
                eq_refl (or_introl eq_refl) eq_refl) as (H1 & H2 & _).
  split; [exact H1 | exact H2].
Defined.

(** ** The polling loop *)

(** C2: whatever the replies, the poller sends a first query
    unconditionally ([1 <= n]); it sends a further query only while the
    snapshot it holds has Unknown pull requests and the counter is below
    [max]; and it stops at the first count [n] where the snapshot has none
    or [max <= n].  (If the very first query fails there is no snapshot and
    the loop ends in a TypeError after that one query.)  In particular, with
    [max = 3] and replies that always leave the one pull request [p]
    Unknown, it sends exactly 3 queries and ends with [p] unresolved. *)
Theorem poller_stops_when_resolved_or_exhausted (max : nat) (ms : N) (w : World) :
  (let r := pollMergeability (S max) max ms w in
   let n := fetchCount (fst r) in
   1 <= n /\
   (forall k, 1 <= k < n -> unknownAfter w k <> [] /\ k < max) /\
   match snd r with
   | Returned st =>
       tries st = n /\
       pullRequests st = snapshotAfter w n /\
       pullrequestsWithoutMergeStatus st = unknownAfter w n /\
       (unknownAfter w n = [] \/ max <= n)
   | Thrown e =>
       e = TypeError_pullRequests /\ n = 1 /\
       exists error, getPullRequests w 1 = Rejects error
   | OutOfFuel => False
   end) /\
  (forall p,
     max = 3 ->
     (forall k, exists l, getPullRequests w k = Resolves l /\
                          filter (hasMergeable UNKNOWN) l = [p]) ->
     let r := pollMergeability (S max) max ms w in
     fetchCount (fst r) = 3 /\
     exists st, snd r = Returned st /\ tries st = 3 /\
                pullrequestsWithoutMergeStatus st = [p] /\
                List.length (pullrequestsWithoutMergeStatus st) = 1).
Proof.
  pose proof (pollMergeability_post max ms w) as Hpost.
  split; [exact Hpost | ].
  intros p -> Hstuck r. subst r.
  destruct Hpost as (Hn & Hk & Hend).
  set (r := pollMergeability 4 3 ms w) in *.
  set (n := fetchCount (fst r)) in *.
  assert (Hunknown : forall k, 1 <= k -> unknownAfter w k = [p]).
  { intros k Hk1. destruct k as [ | k]; [lia | ].
    unfold unknownAfter. cbn [snapshotAfter].
    destruct (Hstuck (S k)) as (l & -> & Hl). exact Hl. }
  assert (Hle : n <= 3).
  { destruct (le_gt_dec n 3) as [H | H]; [exact H | ].
    destruct (Hk 3) as [_ Hlt]; lia. }
  destruct (snd r) as [st | e | ]; [ | | contradiction].
  - destruct Hend as (Ht & _ & Hu & Hstop).
    rewrite (Hunknown n Hn) in Hu, Hstop.
    assert (n = 3) as Hn3 by (destruct Hstop as [H | H]; [discriminate H | lia]).
    split; [exact Hn3 | ]. exists st. rewrite Hu.
    repeat split; try reflexivity. rewrite Ht. exact Hn3.
  - destruct Hend as (_ & _ & error & Hrej).
    destruct (Hstuck 1) as (l & Hl & _). congruence.
Qed.

Lemma poller_stops_when_resolved_or_exhausted_witness :
  let r := pollMergeability 4 3 waitMs Scenario.stuckWorld in
  fetchCount (fst r) = 3 /\
  exists st, snd r = Returned st /\ tries st = 3 /\
             pullrequestsWithoutMergeStatus st = [Scenario.stuck] /\
             List.length (pullrequestsWithoutMergeStatus st) = 1.
Proof.
  apply (proj2 (poller_stops_when_resolved_or_exhausted 3 waitMs
                  Scenario.stuckWorld) Scenario.stuck eq_refl).
  intros k. exists [Scenario.stuck; Scenario.pr1]. split; reflexivity.
Defined.

(** ** The label resolver *)

(** C7: the resolver picks a label by equality of its name field and by
    nothing else: what it returns has exactly the configured name and is the
    first such candidate, whatever precedes it in the reply; it returns
    nothing only if no candidate has that name; and [run] works with that
    label.  On the candidates "has conflicts", "has-conflicts-old" and the
    name "has conflicts" it returns the first, in either order of the
    reply. *)
Theorem resolver_selects_by_exact_name (w : World) (name : string)
  (edges : list IGithubLabelNode) :
  match findLabelByName name edges with
  | Some l =>
      label_name l = name /\
      exists before after,
        edges = before ++ l :: after /\
        Forall (fun x => label_name x <> name) before
  | None => Forall (fun x => label_name x <> name) edges
  end /\
  snd (resolveLabel w) =
    Returned (match getLabels w with
              | Resolves candidates =>
                  findLabelByName (conflictLabelName w) candidates
              | Rejects _ => None
              end) /\
  findLabelByName "has conflicts" [Scenario.ConflictLabel; Scenario.OldLabel]
    = Some Scenario.ConflictLabel /\
  findLabelByName "has conflicts" [Scenario.OldLabel; Scenario.ConflictLabel]
    = Some Scenario.ConflictLabel.
Proof.
  split; [ | split; [apply resolveLabel_returns | split; reflexivity]].
  destruct (findLabelByName name edges) as [l | ] eqn:E.
  - apply findLabelByName_first in E. destruct E as (b & a & He & Hn & Hb).
    split; [exact Hn | ]. exists b, a. split; assumption.
  - apply Forall_forall. apply findLabelByName_None. exact E.
Qed.

Lemma resolver_selects_by_exact_name_witness :
  label_name Scenario.ConflictLabel = "has conflicts" /\
  snd (resolveLabel Scenario.world) = Returned (Some Scenario.ConflictLabel).
Proof.
  pose proof (resolver_selects_by_exact_name Scenario.world "has conflicts"
                [Scenario.OldLabel; Scenario.ConflictLabel]) as (H1 & H2 & _).
  split; [exact (proj1 H1) | exact H2].
Defined.

(** ** Requests in flight *)

Lemma labelCallback_request (cl : option IGithubLabelNode) (p : IGithubPRNode) :
  mutations (fst (labelCallback cl p)) =
  map requestOf (inFlight [snd (labelCallback cl p)]).
Proof.
  unfold labelCallback.
  destruct (isAlreadyLabeled cl (pr_labels p)) as [e | [l | ]];
    try reflexivity.
  destruct cl; reflexivity.
Qed.

Lemma unlabelCallback_request (cl : option IGithubLabelNode) (p : IGithubPRNode) :
  mutations (fst (unlabelCallback cl p)) =
  map requestOf (inFlight [snd (unlabelCallback cl p)]).
Proof.
  unfold unlabelCallback.
  destruct (isAlreadyLabeled cl (pr_labels p)) as [e | [l | ]];
    try reflexivity.
  destruct cl; reflexivity.
Qed.

Lemma inFlight_app (ps qs : list Promise) :
  inFlight (ps ++ qs) = inFlight ps ++ inFlight qs.
Proof. apply flat_map_app. Qed.

Lemma forEachAsync_requests (callback : IGithubPRNode -> list Event * Promise)
  (l : list IGithubPRNode) :
  (forall p, mutations (fst (callback p)) =
             map requestOf (inFlight [snd (callback p)])) ->
  mutations (flat_map (fun p => fst (callback p)) l) =
  map requestOf (inFlight (map (fun p => snd (callback p)) l)).
Proof.
  intros Hcb. induction l as [ | p l IH]; [reflexivity | ].
  cbn [flat_map map]. rewrite mutations_app, IH, Hcb.
  change (snd (callback p) :: map (fun p0 => snd (callback p0)) l)
    with ([snd (callback p)] ++ map (fun p0 => snd (callback p0)) l).
  rewrite inFlight_app, map_app. reflexivity.
Qed.

(** Every request a reconciliation sends is still in flight when it is
    over: no callback gets past its [await]. *)
Lemma reconcile_requests_in_flight (cl : option IGithubLabelNode)
  (prs : list IGithubPRNode) (promises : list Promise) :
  snd (reconcile cl prs) = Returned promises ->
  mutations (fst (reconcile cl prs)) = map requestOf (inFlight promises).
Proof.
  rewrite reconcile_unfold. cbn [fst snd]. intros H. injection H as <-.
  rewrite mutations_app, inFlight_app, map_app.
  rewrite <- (forEachAsync_requests (labelCallback cl) _ (labelCallback_request cl)).
  rewrite <- (forEachAsync_requests (unlabelCallback cl) _
                                    (unlabelCallback_request cl)).
  unfold labelPass, unlabelPass.
  destruct (nonEmpty (pullrequestsWithConflicts prs)) eqn:E1;
    destruct (nonEmpty (pullrequestsWithConflictResolution prs)) eqn:E2;
    try (apply nonEmpty_false in E1; rewrite E1);
    try (apply nonEmpty_false in E2; rewrite E2);
    reflexivity.
Qed.

Lemma run_requests_in_flight (w : World) (t : list Event)
  (promises : list Promise) :
  run w = (t, Returned promises) ->
  mutations t = map requestOf (inFlight promises).
Proof.
  intros Hrun.
  destruct (finalSnapshot w) as [prs | ] eqn:Hs.
  - unfold run in Hrun. rewrite (runWith_reconciles _ _ _ _ Hs) in Hrun.
    injection Hrun as <- Hp.
    rewrite !mutations_app, resolveLabel_no_mutation,
      pollMergeability_no_mutation.
    apply reconcile_requests_in_flight. exact Hp.
  - exfalso. unfold run in Hrun. rewrite runWith_unfold in Hrun.
    cbv zeta in Hrun. unfold finalSnapshot, finalSnapshotWith in Hs.
    destruct (snd (pollMergeability (S maxRetries) maxRetries waitMs w))
      as [st | e | ]; [rewrite Hs in Hrun | | ]; discriminate Hrun.
Qed.

(** ** A label that is not found *)

Lemma runWith_starts_with_resolver (max : nat) (ms : N) (w : World) :
  exists rest, fst (runWith max ms w) = fst (resolveLabel w) ++ rest.
Proof.
  rewrite runWith_unfold. cbv zeta.
  destruct (snd (pollMergeability (S max) max ms w)) as [st | e | ];
    [destruct (pullRequests st) | | ]; cbn [fst]; eexists; reflexivity.
Qed.

(** C3, as the spec states it, fails: with only the near match
    "has-conflicts-old" in the repository the failure is reported, but the
    run does not end at the report.  It goes on to query the pull requests
    and enters both passes. *)
Lemma missing_label_does_not_abort :
  getLabels Scenario.noLabelWorld = Resolves [Scenario.OldLabel] /\
  label_name Scenario.OldLabel <> conflictLabelName Scenario.noLabelWorld /\
  ~ abortsOn isLabelNotFound (fst (run Scenario.noLabelWorld)).
Proof.
  split; [reflexivity | ]. split; [simpl; discriminate | ].
  intros H.
  specialize (H [CallGetLabels "has conflicts"]
                (CoreSetFailed (LabelNotFound "has conflicts"))
                [CallGetPullRequests;
                 CoreDebug (Labeling 1);
                 CoreSetFailed (AddLabelsFailed TypeError_conflictLabel)]
                eq_refl eq_refl).
  discriminate H.
Qed.

(** C3, amended: if the label query succeeds and no label of the reply has
    exactly the configured name, the run is marked failed with the
    label-not-found report, it comes to an end, and no add-label or
    remove-label request is sent at any point of it. *)
Theorem missing_label_fails_without_mutation (w : World)
  (edges : list IGithubLabelNode) :
  getLabels w = Resolves edges ->
  (forall l, In l edges -> label_name l <> conflictLabelName w) ->
  In (CoreSetFailed (LabelNotFound (conflictLabelName w))) (fst (run w)) /\
  markedFailed (fst (run w)) = true /\
  mutations (fst (run w)) = [] /\
  (forall promises, snd (run w) = Returned promises -> inFlight promises = []) /\
  snd (run w) <> OutOfFuel.
Proof.
  intros Hl Hnone. apply findLabelByName_None in Hnone.
  assert (Hc : conflictLabelOf w = None).
  { unfold conflictLabelOf. rewrite Hl. exact Hnone. }
  assert (Hin : In (CoreSetFailed (LabelNotFound (conflictLabelName w)))
                   (fst (run w))).
  { destruct (runWith_starts_with_resolver maxRetries waitMs w) as [rest Hr].
    unfold run. rewrite Hr. apply in_or_app. left.
    unfold resolveLabel. rewrite Hl. simpl. rewrite Hnone. simpl. tauto. }
  assert (Hm : mutations (fst (run w)) = []).
  { unfold run. rewrite runWith_mutations, Hc.
    destruct (finalSnapshotWith maxRetries waitMs w); [ | reflexivity].
    apply reconcile_undefined_no_mutation. }
  split; [exact Hin | ]. split; [exact (markedFailed_In _ _ Hin) | ].
  split; [exact Hm | ]. split; [ | apply runWith_terminates].
  intros promises Hret.
  pose proof (run_requests_in_flight w (fst (run w)) promises) as Hfl.
  rewrite Hm in Hfl. symmetry in Hfl. apply map_eq_nil in Hfl; [exact Hfl | ].
  destruct (run w); simpl in *; subst; reflexivity.
Qed.

Lemma missing_label_fails_without_mutation_witness :
  markedFailed (fst (run Scenario.noLabelWorld)) = true /\
  mutations (fst (run Scenario.noLabelWorld)) = [].
Proof.
  pose proof (missing_label_fails_without_mutation Scenario.noLabelWorld
                [Scenario.OldLabel] eq_refl) as H.
  assert (Hnone : forall l, In l [Scenario.OldLabel] ->
                            label_name l <> conflictLabelName Scenario.noLabelWorld).
  { intros l [<- | []]. simpl. discriminate. }
  destruct (H Hnone) as (_ & Hf & Hm & _).
  split; [exact Hf | exact Hm].
Defined.

(** C10: the undefined dereference is reachable.  On some input the label
    query succeeds without an exact match, the snapshot has a conflicting
    and a mergeable pull request that carry labels, and after the
    label-not-found report the run reaches both passes with an undefined
    [conflictLabel]: the already-labelled check of each of the two raises
    the TypeError of [conflictLabel.node] (the callback's promise is
    rejected), and the argument of [addLabelsToLabelable] raises it for the
    unlabelled conflicting pull request. *)
Theorem undefined_label_dereferenced_after_not_found :
  exists w edges prs p q,
    getLabels w = Resolves edges /\
    Forall (fun l => label_name l <> conflictLabelName w) edges /\
    conflictLabelOf w = None /\
    finalSnapshot w = Some prs /\
    In p prs /\ pr_mergeable p = CONFLICTING /\
    In q prs /\ pr_mergeable q = MERGEABLE /\
    isAlreadyLabeled (conflictLabelOf w) (pr_labels p)
      = inl TypeError_conflictLabel /\
    isAlreadyLabeled (conflictLabelOf w) (pr_labels q)
      = inl TypeError_conflictLabel /\
    snd (labelCallback (conflictLabelOf w) p)
      = RejectedWith TypeError_conflictLabel /\
    snd (unlabelCallback (conflictLabelOf w) q)
      = RejectedWith TypeError_conflictLabel /\
    exists before after promises,
      run w = (before ++
               CoreSetFailed (LabelNotFound (conflictLabelName w)) :: after,
               Returned promises) /\
      In (CoreSetFailed (AddLabelsFailed TypeError_conflictLabel)) after /\
      unhandledRejections promises
        = [TypeError_conflictLabel; TypeError_conflictLabel].
Proof.
  exists Scenario.noLabelWorld, [Scenario.OldLabel],
         [Scenario.pr1; Scenario.pr2; Scenario.pr3],
         Scenario.pr3, Scenario.pr2.
  split; [reflexivity | ].
  split; [repeat constructor; simpl; discriminate | ].
  split; [reflexivity | ]. split; [reflexivity | ].
  split; [simpl; tauto | ]. split; [reflexivity | ].
  split; [simpl; tauto | ]. split; [reflexivity | ].
  split; [reflexivity | ]. split; [reflexivity | ].
  split; [reflexivity | ]. split; [reflexivity | ].
  exists [CallGetLabels "has conflicts"],
         [CallGetPullRequests;
          CoreDebug (Labeling 1);
          CoreSetFailed (AddLabelsFailed TypeError_conflictLabel)],
         [Fulfilled; RejectedWith TypeError_conflictLabel;
          RejectedWith TypeError_conflictLabel].
  split; [vm_compute; reflexivity | ]. split; [simpl; tauto | reflexivity].
Qed.

(** The same for every run: when the label is missing, each pull request of
    the final snapshot that has a known fact and carries some label makes
    its callback raise the TypeError. *)
Lemma missing_label_rejects_labelled (w : World)
  (prs : list IGithubPRNode) (p : IGithubPRNode) (t : list Event)
  (promises : list Promise) :
  conflictLabelOf w = None ->
  finalSnapshot w = Some prs ->
  In p prs -> pr_mergeable p <> UNKNOWN -> pr_labels p <> [] ->
  run w = (t, Returned promises) ->
  In (RejectedWith TypeError_conflictLabel) promises.
Proof.
  intros Hc Hs Hp Hknown Hlabels Hrun.
  unfold run in Hrun. rewrite (runWith_reconciles _ _ _ _ Hs) in Hrun.
  rewrite Hc, reconcile_unfold in Hrun. cbn [snd] in Hrun.
  injection Hrun as _ <-. apply in_or_app.
  destruct (pr_mergeable p) eqn:Hm; [left | right | congruence].
  - apply in_map_iff. exists p. split.
    + unfold labelCallback. destruct (pr_labels p); [congruence | reflexivity].
    + apply pullrequestsWithConflicts_In. split; assumption.
  - apply in_map_iff. exists p. split.
    + unfold unlabelCallback. destruct (pr_labels p); [congruence | reflexivity].
    + apply pullrequestsWithConflictResolution_In. split; assumption.
Qed.

(** ** Fetch errors *)

Lemma labelCallback_no_fetch (cl : option IGithubLabelNode) (p : IGithubPRNode) :
  fetchCount (fst (labelCallback cl p)) = 0.
Proof.
  unfold labelCallback.
  destruct (isAlreadyLabeled cl (pr_labels p)) as [e | [l | ]];
    try reflexivity.
  destruct cl; reflexivity.
Qed.

Lemma unlabelCallback_no_fetch (cl : option IGithubLabelNode) (p : IGithubPRNode) :
  fetchCount (fst (unlabelCallback cl p)) = 0.
Proof.
  unfold unlabelCallback.
  destruct (isAlreadyLabeled cl (pr_labels p)) as [e | [l | ]];
    try reflexivity.
  destruct cl; reflexivity.
Qed.

Lemma forEachAsync_no_fetch (callback : IGithubPRNode -> list Event * Promise)
  (l : list IGithubPRNode) :
  (forall p, fetchCount (fst (callback p)) = 0) ->
  fetchCount (fst (forEachAsync callback l)) = 0.
Proof.
  intros Hcb. cbn [forEachAsync fst].
  induction l as [ | p l IH]; [reflexivity | ].
  cbn [flat_map]. rewrite fetchCount_app, IH, Hcb. reflexivity.
Qed.

Lemma reconcile_no_fetch (cl : option IGithubLabelNode)
  (prs : list IGithubPRNode) :
  fetchCount (fst (reconcile cl prs)) = 0.
Proof.
  rewrite reconcile_unfold. cbn [fst]. rewrite fetchCount_app.
  unfold labelPass, unlabelPass.
  destruct (nonEmpty (pullrequestsWithConflicts prs));
    destruct (nonEmpty (pullrequestsWithConflictResolution prs));
    rewrite ?(forEachAsync_no_fetch _ _ (labelCallback_no_fetch cl)),
            ?(forEachAsync_no_fetch _ _ (unlabelCallback_no_fetch cl));
    reflexivity.
Qed.

(** The trace of [run] around the trace of its poller. *)
Lemma runWith_around_poller (max : nat) (ms : N) (w : World) :
  exists rest,
    fst (runWith max ms w) =
      fst (resolveLabel w) ++ fst (pollMergeability (S max) max ms w) ++ rest /\
    fetchCount rest = 0.
Proof.
  rewrite runWith_unfold. cbv zeta.
  destruct (snd (pollMergeability (S max) max ms w)) as [st | e | ];
    [destruct (pullRequests st) as [prs | ] | | ]; cbn [fst].
  - exists (fst (reconcile (conflictLabelOf w) prs)).
    split; [reflexivity | apply reconcile_no_fetch].
  - exists []. rewrite app_nil_r. split; reflexivity.
  - exists []. rewrite app_nil_r. split; reflexivity.
  - exists []. rewrite app_nil_r. split; reflexivity.
Qed.

Lemma runWith_fetchCount (max : nat) (ms : N) (w : World) :
  fetchCount (fst (runWith max ms w)) =
  fetchCount (fst (pollMergeability (S max) max ms w)).
Proof.
  destruct (runWith_around_poller max ms w) as (rest & -> & Hrest).
  rewrite !fetchCount_app, resolveLabel_no_fetch, Hrest. lia.
Qed.

Lemma pollMergeability_reports_failures (max : nat) (ms : N) (w : World)
  (k : nat) (error : Error) :
  1 <= k <= fetchCount (fst (pollMergeability (S max) max ms w)) ->
  getPullRequests w k = Rejects error ->
  In (CoreSetFailed (GetPullRequestsFailed error))
     (fst (pollMergeability (S max) max ms w)).
Proof.
  rewrite pollMergeability_fetchCount. intros Hk Hrej.
  pose proof (pollLoop_run_spec max ms w) as (_ & Hfail & _).
  specialize (Hfail k error). cbn [tries pollStart] in Hfail.
  assert (Hin : In (CoreSetFailed (GetPullRequestsFailed error))
                   (fst (pollLoop (S max) max ms w pollStart)))
    by (apply Hfail; [lia | exact Hrej]).
  rewrite pollMergeability_unfold. cbv zeta.
  destruct (snd (pollLoop (S max) max ms w pollStart)); cbn [fst];
    try exact Hin.
  apply in_or_app. left. exact Hin.
Qed.

(** C4, as the spec states it, fails: the second pull-request query of
    [flakyWorld] is rejected, the failure is reported, and the run still
    waits, queries a third time and sends an add-label request. *)
Lemma fetch_error_followed_by_mutation :
  getPullRequests Scenario.flakyWorld 2 = Rejects TransportError /\
  ~ noMutationAfter isFetchFailure (fst (run Scenario.flakyWorld)).
Proof.
  split; [reflexivity | ].
  intros H.
  specialize (H [CallGetLabels "has conflicts"; CallGetPullRequests;
                 CoreDebug (WaitingForMergeable 2 60); CallWait 60000;
                 CallGetPullRequests]
                (CoreSetFailed (GetPullRequestsFailed TransportError))
                [CoreDebug (WaitingForMergeable 3 60); CallWait 60000;
                 CallGetPullRequests; CoreDebug (Labeling 1);
                 CallAddLabels (mkMutation "L1" "1");
                 CoreDebug NoResolvedConflicts]
                eq_refl eq_refl).
  discriminate H.
Qed.

(** C4, amended: a transport error during any fetch marks the run failed:
    a rejected label query is reported and so is every rejected
    pull-request query the run has sent.  After a rejected label query the
    run sends no add-label or remove-label request.  The run comes to an
    end in every case. *)
Theorem fetch_error_marks_run_failed (w : World) :
  (forall error,
     getLabels w = Rejects error ->
     In (CoreSetFailed (GetLabelsFailed error)) (fst (run w)) /\
     markedFailed (fst (run w)) = true /\
     mutations (fst (run w)) = []) /\
  (forall k error,
     1 <= k <= fetchCount (fst (run w)) ->
     getPullRequests w k = Rejects error ->
     In (CoreSetFailed (GetPullRequestsFailed error)) (fst (run w)) /\
     markedFailed (fst (run w)) = true) /\
  snd (run w) <> OutOfFuel.
Proof.
  split; [ | split; [ | apply runWith_terminates]].
  - intros error Hrej.
    assert (Hin : In (CoreSetFailed (GetLabelsFailed error)) (fst (run w))).
    { destruct (runWith_starts_with_resolver maxRetries waitMs w) as [rest Hr].
      unfold run. rewrite Hr. apply in_or_app. left.
      unfold resolveLabel. rewrite Hrej. simpl. tauto. }
    split; [exact Hin | ]. split; [exact (markedFailed_In _ _ Hin) | ].
    unfold run. rewrite runWith_mutations.
    replace (conflictLabelOf w) with (@None IGithubLabelNode)
      by (unfold conflictLabelOf; rewrite Hrej; reflexivity).
    destruct (finalSnapshotWith maxRetries waitMs w); [ | reflexivity].
    apply reconcile_undefined_no_mutation.
  - intros k error Hk Hrej. unfold run in *.
    rewrite runWith_fetchCount in Hk.
    pose proof (pollMergeability_reports_failures _ waitMs _ _ _ Hk Hrej) as Hin.
    destruct (runWith_around_poller maxRetries waitMs w) as (rest & Hr & _).
    assert (Hin' : In (CoreSetFailed (GetPullRequestsFailed error))
                      (fst (runWith maxRetries waitMs w))).
    { rewrite Hr. apply in_or_app. right. apply in_or_app. left. exact Hin. }
    split; [exact Hin' | exact (markedFailed_In _ _ Hin')].
Qed.

Lemma fetch_error_marks_run_failed_witness :
  In (CoreSetFailed (GetPullRequestsFailed TransportError))
     (fst (run Scenario.flakyWorld)) /\
  markedFailed (fst (run Scenario.flakyWorld)) = true.
Proof.
  apply (proj1 (proj2 (fetch_error_marks_run_failed Scenario.flakyWorld))
           2 TransportError).
  - vm_compute. split; repeat constructor.
  - reflexivity.
Defined.

(** ** Requests that outlive [run] *)

(** C5, on the code: in the end-to-end scenario [run] returns while both
    requests it has sent are still in flight.  Its trace has the two calls
    and no "labeled" or "unlabeled" line; the run is not marked failed at
    that point whatever the replies will be, because the [catch] clauses of
    the callbacks have not run yet. *)
Theorem run_returns_with_requests_in_flight :
  exists t promises,
    run Scenario.world = (t, Returned promises) /\
    mutations t = [CallAddLabels (mkMutation "L1" "1");
                   CallRemoveLabels (mkMutation "L1" "2")] /\
    inFlight promises = [AwaitAddLabels 1 (mkMutation "L1" "1");
                         AwaitRemoveLabels 2 (mkMutation "L1" "2")] /\
    ~ In (CoreDebug (Labeled 1)) t /\
    ~ In (CoreDebug (Unlabeled 2)) t /\
    (forall add remove,
        markedFailed (fst (run (withMutationReplies Scenario.world add remove)))
        = false).
Proof.
  eexists. eexists. split; [vm_compute; reflexivity | ].
  split; [reflexivity | ]. split; [reflexivity | ].
  split; [simpl; intuition discriminate | ].
  split; [simpl; intuition discriminate | ].
  intros add remove. reflexivity.
Qed.

(** ** Independence of the requests *)

Lemma pollLoop_ignores_mutation_replies (max : nat) (ms : N) (w : World)
  (add remove : Mutation -> option Error) :
  forall fuel st,
    pollLoop fuel max ms (withMutationReplies w add remove) st =
    pollLoop fuel max ms w st.
Proof.
  induction fuel as [ | fuel IH]; intros st; cbn [pollLoop]; [reflexivity | ].
  destruct (pollAgain max st); [ | reflexivity].
  change (pollOnce max ms (withMutationReplies w add remove) st)
    with (pollOnce max ms w st).
  rewrite !bind_unfold.
  destruct (snd (pollOnce max ms w st)); try reflexivity.
  rewrite IH. reflexivity.
Qed.

(** [run] never looks at the reply to a mutation. *)
Lemma run_ignores_mutation_replies (w : World)
  (add remove : Mutation -> option Error) :
  run (withMutationReplies w add remove) = run w.
Proof.
  unfold run, runWith, pollMergeability.
  rewrite pollLoop_ignores_mutation_replies. reflexivity.
Qed.

Lemma settle_failure (w : World) (a : Awaited) :
  settleFails w a = true -> markedFailed (settle w a) = true.
Proof.
  destruct a as [n m | n m]; simpl.
  - destruct (addLabelsToLabelable w m); [reflexivity | discriminate].
  - destruct (removeLabelsFromLabelable w m); [reflexivity | discriminate].
Qed.

Lemma settle_success (w : World) (a : Awaited) :
  settleFails w a = false -> settle w a = [doneOf a].
Proof.
  destruct a as [n m | n m]; simpl.
  - destruct (addLabelsToLabelable w m); [discriminate | reflexivity].
  - destruct (removeLabelsFromLabelable w m); [discriminate | reflexivity].
Qed.

Lemma reconcile_inFlight (c : IGithubLabelNode) (prs : list IGithubPRNode)
  (promises : list Promise) :
  snd (reconcile (Some c) prs) = Returned promises ->
  inFlight promises =
  map (fun p => AwaitAddLabels (pr_number p) (addFor c p))
      (filter (needsLabel c) prs) ++
  map (fun p => AwaitRemoveLabels (pr_number p) (addFor c p))
      (filter (needsUnlabel c) prs).
Proof.
  rewrite reconcile_unfold. cbn [snd]. intros H. injection H as <-.
  rewrite inFlight_app. f_equal.
  - unfold pullrequestsWithConflicts, needsLabel.
    induction prs as [ | p prs IH]; [reflexivity | ].
    cbn [filter]. destruct (hasMergeable CONFLICTING p); cbn [andb]; [ | exact IH].
    cbn [map]. rewrite labelCallback_found.
    destruct (labelled c p); cbn [negb snd]; [exact IH | ].
    cbn [map]. rewrite <- IH. reflexivity.
  - unfold pullrequestsWithConflictResolution, needsUnlabel.
    induction prs as [ | p prs IH]; [reflexivity | ].
    cbn [filter]. destruct (hasMergeable MERGEABLE p); cbn [andb]; [ | exact IH].
    cbn [map]. rewrite unlabelCallback_found.
    destruct (labelled c p); cbn [snd]; [ | exact IH].
    cbn [map]. rewrite <- IH. reflexivity.
Qed.

(** C6: let [run] have returned with its requests in flight, let them
    settle in any order, and let the request of one callback [a] fail.
    Then the process is marked failed; every pull request of the snapshot
    that needed the label added or removed had its request sent and its
    callback is among those that settle; every request in flight was sent,
    and each one that goes through is logged as done; and the requests do
    not depend on each other, because [run] is the same whatever the
    replies to the mutations are. *)
Theorem failed_request_does_not_block_others (w : World) (t : list Event)
  (promises : list Promise) (order : list Awaited) (a : Awaited) :
  run w = (t, Returned promises) ->
  Permutation order (inFlight promises) ->
  In a (inFlight promises) ->
  settleFails w a = true ->
  markedFailed (processTrace w (run w) order) = true /\
  (forall c prs q,
     conflictLabelOf w = Some c -> finalSnapshot w = Some prs -> In q prs ->
     (needsLabel c q = true ->
      In (CallAddLabels (addFor c q)) t /\
      In (AwaitAddLabels (pr_number q) (addFor c q)) order) /\
     (needsUnlabel c q = true ->
      In (CallRemoveLabels (addFor c q)) t /\
      In (AwaitRemoveLabels (pr_number q) (addFor c q)) order)) /\
  (forall b,
     In b (inFlight promises) ->
     In (requestOf b) t /\
     (settleFails w b = false -> In (doneOf b) (processTrace w (run w) order))) /\
  (forall add remove, run (withMutationReplies w add remove) = run w).
Proof.
  intros Hrun Hperm Ha Hfail.
  assert (Hsent : forall b, In b (inFlight promises) -> In (requestOf b) t).
  { intros b Hb. apply (in_map requestOf) in Hb.
    rewrite <- (run_requests_in_flight w t promises Hrun) in Hb.
    unfold mutations in Hb. apply filter_In in Hb. apply Hb. }
  assert (Hsettles : forall b, In b (inFlight promises) -> In b order).
  { intros b Hb. apply (Permutation_in b (Permutation_sym Hperm)). exact Hb. }
  split; [ | split; [ | split]].
  - unfold processTrace. rewrite markedFailed_app. apply orb_true_iff. right.
    unfold markedFailed. apply existsb_exists.
    pose proof (settle_failure w a Hfail) as Hs.
    unfold markedFailed in Hs. apply existsb_exists in Hs.
    destruct Hs as (e & He & Hf). exists e. split; [ | exact Hf].
    apply in_flat_map. exists a. split; [apply Hsettles; exact Ha | exact He].
  - intros c prs q Hc Hs Hq.
    assert (Hfl : inFlight promises =
                  map (fun p => AwaitAddLabels (pr_number p) (addFor c p))
                      (filter (needsLabel c) prs) ++
                  map (fun p => AwaitRemoveLabels (pr_number p) (addFor c p))
                      (filter (needsUnlabel c) prs)).
    { apply reconcile_inFlight. unfold run in Hrun.
      rewrite (runWith_reconciles _ _ _ _ Hs), Hc in Hrun.
      injection Hrun as _ Hp. exact Hp. }
    split; intros Hneeds.
    + assert (Hin : In (AwaitAddLabels (pr_number q) (addFor c q))
                       (inFlight promises)).
      { rewrite Hfl. apply in_or_app. left.
        apply (in_map (fun p => AwaitAddLabels (pr_number p) (addFor c p))).
        apply filter_In. split; assumption. }
      split; [exact (Hsent _ Hin) | exact (Hsettles _ Hin)].
    + assert (Hin : In (AwaitRemoveLabels (pr_number q) (addFor c q))
                       (inFlight promises)).
      { rewrite Hfl. apply in_or_app. right.
        apply (in_map (fun p => AwaitRemoveLabels (pr_number p) (addFor c p))).
        apply filter_In. split; assumption. }
      split; [exact (Hsent _ Hin) | exact (Hsettles _ Hin)].
  - intros b Hb. split; [exact (Hsent b Hb) | ].
    intros Hok. unfold processTrace. apply in_or_app. right.
    apply in_flat_map. exists b. split; [exact (Hsettles b Hb) | ].
    rewrite (settle_success w b Hok). left. reflexivity.
  - intros add remove. apply run_ignores_mutation_replies.
Qed.

Lemma failed_request_does_not_block_others_witness :
  markedFailed
    (processTrace Scenario.failingAddWorld (run Scenario.failingAddWorld)
       [AwaitAddLabels 5 (mkMutation "L1" "5");
        AwaitAddLabels 1 (mkMutation "L1" "1")]) = true /\
  In (CallAddLabels (mkMutation "L1" "5")) (fst (run Scenario.failingAddWorld)) /\
  In (CoreDebug (Labeled 5))
     (processTrace Scenario.failingAddWorld (run Scenario.failingAddWorld)
        [AwaitAddLabels 5 (mkMutation "L1" "5");
         AwaitAddLabels 1 (mkMutation "L1" "1")]).
Proof.
  pose proof (failed_request_does_not_block_others Scenario.failingAddWorld
                (fst (run Scenario.failingAddWorld))
                [Suspended (AwaitAddLabels 1 (mkMutation "L1" "1"));
                 Suspended (AwaitAddLabels 5 (mkMutation "L1" "5"))]
                [AwaitAddLabels 5 (mkMutation "L1" "5");
                 AwaitAddLabels 1 (mkMutation "L1" "1")]
                (AwaitAddLabels 1 (mkMutation "L1" "1"))
                eq_refl (perm_swap _ _ []) (or_introl eq_refl) eq_refl)
    as (Hfailed & _ & Hothers & _).
  destruct (Hothers (AwaitAddLabels 5 (mkMutation "L1" "5"))
                    (or_intror (or_introl eq_refl))) as [Hsent Hdone].
  split; [exact Hfailed | ]. split; [exact Hsent | exact (Hdone eq_refl)].
Defined.

(** ** Idempotence *)

Lemma filter_nil {A} (f : A -> bool) (l : list A) :
  (forall x, In x l -> f x = false) -> filter f l = [].
Proof.
  induction l as [ | x l IH]; intros H; [reflexivity | ].
  simpl. rewrite (H x (or_introl eq_refl)). apply IH.
  intros y Hy. apply H. right. exact Hy.
Qed.

Lemma Forall2_In_right {A B} (R : A -> B -> Prop) (l : list A) (l' : list B) :
  Forall2 R l l' -> forall y, In y l' -> exists x, In x l /\ R x y.
Proof.
  induction 1 as [ | x y l l' Hxy _ IH]; intros z Hz; [contradiction | ].
  destruct Hz as [<- | Hz].
  - exists x. split; [left; reflexivity | exact Hxy].
  - destruct (IH z Hz) as (x' & Hx' & HR). exists x'. split; [right | ]; assumption.
Qed.

(** C8, as the spec states it, fails: the snapshot is the reconciler's only
    view of the labels, so a second reconciliation of the unchanged
    snapshot of the end-to-end scenario sends the add and the remove of the
    first one again. *)
Lemma second_run_on_same_snapshot_repeats :
  snd (reconcileAgain (Some Scenario.ConflictLabel)
         [Scenario.pr1; Scenario.pr2; Scenario.pr3]
         [Scenario.pr1; Scenario.pr2; Scenario.pr3]) <> [].
Proof. vm_compute. discriminate. Qed.

(** C8, amended: a second reconciliation sends no add-label and no
    remove-label request when the snapshot it works on is a later fetch of
    the same pull requests (identifiers distinct) with unchanged facts and
    with the label state that the requests of the first reconciliation have
    produced. *)
Theorem reconcile_idempotent_after_refetch (c : IGithubLabelNode)
  (prs prs' : list IGithubPRNode) :
  NoDup (map pr_id prs) ->
  Refetched c (fst (reconcile (Some c) prs)) prs prs' ->
  snd (reconcileAgain (Some c) prs prs') = [].
Proof.
  intros Hnd Href. unfold reconcileAgain. cbn [snd].
  rewrite reconcile_mutations.
  assert (Hstate : forall p', In p' prs' ->
                              needsLabel c p' = false /\ needsUnlabel c p' = false).
  { intros p' Hp'.
    destruct (Forall2_In_right _ _ _ Href p' Hp') as (p & Hp & _ & Hm & Hl).
    rewrite (reconcile_after c prs p Hnd Hp) in Hl.
    unfold needsLabel, needsUnlabel, hasMergeable in *. rewrite Hl, Hm.
    destruct (pr_mergeable p); destruct (labelled c p); split; reflexivity. }
  rewrite (filter_nil (needsLabel c) prs'), (filter_nil (needsUnlabel c) prs').
  - reflexivity.
  - intros x Hx. apply (Hstate x Hx).
  - intros x Hx. apply (Hstate x Hx).
Qed.

Lemma reconcile_idempotent_after_refetch_witness :
  snd (reconcileAgain (Some Scenario.ConflictLabel)
         [Scenario.pr1; Scenario.pr2; Scenario.pr3]
         [mkPR "1" 1 CONFLICTING [Scenario.ConflictLabel];
          mkPR "2" 2 MERGEABLE [];
          Scenario.pr3]) = [].
Proof.
  apply reconcile_idempotent_after_refetch.
  - repeat constructor; simpl; intuition discriminate.
  - repeat constructor.
Defined.

(** * Further properties of [run] *)

(** ** The events of each phase *)

Lemma filter_outside {A} (P f : A -> bool) (t : list A) :
  Forall (fun e => P e = true) t ->
  (forall e, P e = true -> f e = false) ->
  filter f t = [].
Proof.
  intros Hall Hout. induction Hall as [ | e t He _ IH]; [reflexivity | ].
  simpl. rewrite (Hout e He). exact IH.
Qed.

Lemma resolveLabel_events (w : World) :
  Forall (fun e => resolveEvent e = true) (fst (resolveLabel w)).
Proof.
  unfold resolveLabel.
  destruct (getLabels w) as [edges | e]; simpl; [ | repeat constructor].
  destruct (findLabelByName (conflictLabelName w) edges); simpl;
    repeat constructor.
Qed.

Lemma pollOnce_events (max : nat) (ms : N) (w : World) (st : PollState) :
  Forall (fun e => pollEvent e = true) (fst (pollOnce max ms w st)).
Proof.
  unfold pollOnce.
  destruct (nonEmpty (pullrequestsWithoutMergeStatus st));
    destruct (getPullRequests w (S (tries st))) as [l | e];
    try destruct (pullRequests st); simpl; repeat constructor.
Qed.

Lemma pollLoop_events (max : nat) (ms : N) (w : World) :
  forall fuel st,
    Forall (fun e => pollEvent e = true) (fst (pollLoop fuel max ms w st)).
Proof.
  induction fuel as [ | fuel IH]; intros st; cbn [pollLoop];
    destruct (pollAgain max st); try (simpl; constructor).
  rewrite bind_unfold. pose proof (pollOnce_events max ms w st) as H1.
  destruct (snd (pollOnce max ms w st)) as [st' | e | ]; cbn [fst];
    try exact H1.
  apply Forall_app. split; [exact H1 | apply IH].
Qed.

Lemma pollMergeability_events (fuel max : nat) (ms : N) (w : World) :
  Forall (fun e => pollEvent e = true \/ isGiveUp e = true)
         (fst (pollMergeability fuel max ms w)).
Proof.
  assert (H : Forall (fun e => pollEvent e = true \/ isGiveUp e = true)
                     (fst (pollLoop fuel max ms w pollStart))).
  { eapply Forall_impl; [ | apply pollLoop_events]. intros e He. left. exact He. }
  rewrite pollMergeability_unfold. cbv zeta.
  destruct (snd (pollLoop fuel max ms w pollStart)) as [st | e | ]; cbn [fst];
    try exact H.
  apply Forall_app. split; [exact H | ].
  destruct (nonEmpty (pullrequestsWithoutMergeStatus st)); [ | constructor].
  constructor; [right; reflexivity | constructor].
Qed.

Lemma labelCallback_events (cl : option IGithubLabelNode) (p : IGithubPRNode) :
  Forall (fun e => reconcileEvent e = true) (fst (labelCallback cl p)).
Proof.
  unfold labelCallback.
  destruct (isAlreadyLabeled cl (pr_labels p)) as [e | [l | ]];
    try destruct cl; simpl; repeat constructor.
Qed.

Lemma unlabelCallback_events (cl : option IGithubLabelNode) (p : IGithubPRNode) :
  Forall (fun e => reconcileEvent e = true) (fst (unlabelCallback cl p)).
Proof.
  unfold unlabelCallback.
  destruct (isAlreadyLabeled cl (pr_labels p)) as [e | [l | ]];
    try destruct cl; simpl; repeat constructor.
Qed.

Lemma forEachAsync_events (callback : IGithubPRNode -> list Event * Promise)
  (l : list IGithubPRNode) :
  (forall p, Forall (fun e => reconcileEvent e = true) (fst (callback p))) ->
  Forall (fun e => reconcileEvent e = true) (fst (forEachAsync callback l)).
Proof.
  intros Hcb. cbn [forEachAsync fst].
  induction l as [ | p l IH]; [constructor | ].
  cbn [flat_map]. apply Forall_app. split; [apply Hcb | exact IH].
Qed.

Lemma reconcile_events (cl : option IGithubLabelNode) (prs : list IGithubPRNode) :
  Forall (fun e => reconcileEvent e = true) (fst (reconcile cl prs)).
Proof.
  rewrite reconcile_unfold. cbn [fst]. apply Forall_app.
  unfold labelPass, unlabelPass. split.
  - destruct (nonEmpty (pullrequestsWithConflicts prs)).
    + apply forEachAsync_events. apply labelCallback_events.
    + simpl. repeat constructor.
  - destruct (nonEmpty (pullrequestsWithConflictResolution prs)).
    + apply forEachAsync_events. apply unlabelCallback_events.
    + simpl. repeat constructor.
Qed.

(** The trace of [run] is the trace of the resolver, then that of the
    poller, then what the reconciler does if it is reached. *)
Lemma runWith_phases (max : nat) (ms : N) (w : World) :
  exists rest,
    fst (runWith max ms w) =
      fst (resolveLabel w) ++ fst (pollMergeability (S max) max ms w) ++ rest /\
    Forall (fun e => reconcileEvent e = true) rest /\
    (rest = [] \/
     exists prs, finalSnapshotWith max ms w = Some prs /\
                 rest = fst (reconcile (conflictLabelOf w) prs)).
Proof.
  rewrite runWith_unfold. cbv zeta. unfold finalSnapshotWith.
  destruct (snd (pollMergeability (S max) max ms w)) as [st | e | ];
    [destruct (pullRequests st) as [prs | ] | | ]; cbn [fst].
  - exists (fst (reconcile (conflictLabelOf w) prs)).
    split; [reflexivity | ]. split; [apply reconcile_events | ].
    right. exists prs. split; reflexivity.
  - exists []. rewrite app_nil_r. repeat split; [constructor | left; reflexivity].
  - exists []. rewrite app_nil_r. repeat split; [constructor | left; reflexivity].
  - exists []. rewrite app_nil_r. repeat split; [constructor | left; reflexivity].
Qed.

(** ** Queries and waits *)

Lemma pollOnce_waits (max : nat) (ms : N) (w : World) (st : PollState) :
  filter isWait (fst (pollOnce max ms w st)) =
  if nonEmpty (pullrequestsWithoutMergeStatus st) then [CallWait ms] else [].
Proof.
  unfold pollOnce.
  destruct (nonEmpty (pullrequestsWithoutMergeStatus st));
    destruct (getPullRequests w (S (tries st))) as [l | e];
    try destruct (pullRequests st); reflexivity.
Qed.

Lemma pollOnce_tries (max : nat) (ms : N) (w : World) (st st' : PollState) :
  snd (pollOnce max ms w st) = Returned st' -> tries st' = S (tries st).
Proof.
  unfold pollOnce.
  destruct (nonEmpty (pullrequestsWithoutMergeStatus st));
    destruct (getPullRequests w (S (tries st))) as [l | e];
    try destruct (pullRequests st); simpl; intros H;
    try discriminate H; injection H as <-; reflexivity.
Qed.

Lemma pollLoop_waits (max : nat) (ms : N) (w : World) :
  forall fuel st,
    tries st <> 0 ->
    filter isWait (fst (pollLoop fuel max ms w st)) =
    repeat (CallWait ms) (fetchCount (fst (pollLoop fuel max ms w st))).
Proof.
  induction fuel as [ | fuel IH]; intros st Hst; cbn [pollLoop];
    destruct (pollAgain max st) eqn:Hc; try reflexivity.
  assert (Hu : nonEmpty (pullrequestsWithoutMergeStatus st) = true).
  { unfold pollAgain in Hc. apply orb_true_iff in Hc. destruct Hc as [Hc | Hc].
    - apply andb_true_iff in Hc. apply Hc.
    - apply Nat.eqb_eq in Hc. contradiction. }
  rewrite bind_unfold.
  pose proof (pollOnce_waits max ms w st) as Hw. rewrite Hu in Hw.
  pose proof (pollOnce_trace max ms w st) as (Hf & _).
  destruct (snd (pollOnce max ms w st)) as [st' | e | ] eqn:Hs; cbn [fst].
  - rewrite filter_app, fetchCount_app, Hw, Hf, IH.
    + reflexivity.
    + rewrite (pollOnce_tries max ms w st st' Hs). discriminate.
  - rewrite Hw, Hf. reflexivity.
  - rewrite Hw, Hf. reflexivity.
Qed.

Lemma pollLoop_start_waits (max : nat) (ms : N) (w : World) :
  filter isWait (fst (pollLoop (S max) max ms w pollStart)) =
  repeat (CallWait ms)
         (fetchCount (fst (pollLoop (S max) max ms w pollStart)) - 1).
Proof.
  cbn [pollLoop].
  replace (pollAgain max pollStart) with true
    by (unfold pollAgain; cbn [tries pollStart Nat.eqb]; symmetry; apply orb_true_r).
  rewrite bind_unfold.
  pose proof (pollOnce_waits max ms w pollStart) as Hw.
  change (nonEmpty (pullrequestsWithoutMergeStatus pollStart)) with false in Hw.
  pose proof (pollOnce_trace max ms w pollStart) as (Hf & _).
  destruct (snd (pollOnce max ms w pollStart)) as [st' | e | ] eqn:Hs; cbn [fst].
  - rewrite filter_app, fetchCount_app, Hw, Hf, pollLoop_waits.
    + simpl. rewrite Nat.sub_0_r. reflexivity.
    + rewrite (pollOnce_tries max ms w pollStart st' Hs). discriminate.
  - rewrite Hw, Hf. reflexivity.
  - rewrite Hw, Hf. reflexivity.
Qed.

Lemma pollMergeability_fetch_bound (max : nat) (ms : N) (w : World) :
  fetchCount (fst (pollMergeability (S max) max ms w)) <= Nat.max 1 max.
Proof.
  pose proof (pollMergeability_post max ms w) as (Hn & Hk & _).
  set (n := fetchCount (fst (pollMergeability (S max) max ms w))) in *.
  destruct (le_gt_dec n (Nat.max 1 max)) as [H | H]; [exact H | exfalso].
  destruct (Hk (Nat.max 1 max)) as [_ Hlt]; lia.
Qed.

Lemma runWith_waits (max : nat) (ms : N) (w : World) :
  filter isWait (fst (runWith max ms w)) =
  repeat (CallWait ms) (fetchCount (fst (runWith max ms w)) - 1).
Proof.
  rewrite runWith_fetchCount, pollMergeability_fetchCount.
  destruct (runWith_phases max ms w) as (rest & -> & Hrest & _).
  rewrite !filter_app.
  rewrite (filter_outside resolveEvent isWait _ (resolveLabel_events w))
    by (intros [ | | | | | [ | | | | | ] | ]; simpl; congruence).
  rewrite (filter_outside reconcileEvent isWait _ Hrest)
    by (intros [ | | | | | | [ | | | | | | | | ] ]; simpl; congruence).
  rewrite app_nil_r. cbn [app].
  rewrite pollMergeability_unfold. cbv zeta.
  destruct (snd (pollLoop (S max) max ms w pollStart)) as [st | e | ];
    cbn [fst]; rewrite ?filter_app, pollLoop_start_waits;
    try reflexivity.
  destruct (nonEmpty (pullrequestsWithoutMergeStatus st)); simpl;
    rewrite app_nil_r; reflexivity.
Qed.

Lemma waitsLeadToQuery_none (t : list Event) :
  filter isWait t = [] -> waitsLeadToQuery t.
Proof.
  intros Hnone before e after -> Hw. exfalso.
  rewrite filter_app in Hnone. cbn [filter] in Hnone. rewrite Hw in Hnone.
  destruct (filter isWait before); discriminate Hnone.
Qed.

Lemma waitsLeadToQuery_app (t1 t2 : list Event) :
  waitsLeadToQuery t1 -> waitsLeadToQuery t2 -> waitsLeadToQuery (t1 ++ t2).
Proof.
  intros H1 H2 before e after Heq Hw.
  apply app_eq_app in Heq. destruct Heq as (l & [[-> Hl] | [-> Hl]]).
  - destruct l as [ | x l].
    + cbn [app] in Hl. subst t2. rewrite app_nil_r in H1.
      apply (H2 [] e after eq_refl Hw).
    + cbn [app] in Hl. injection Hl as <- ->.
      destruct (H1 before e l eq_refl Hw) as [l' ->].
      exists (l' ++ t2). reflexivity.
  - apply (H2 l e after Hl Hw).
Qed.

Lemma pollOnce_waitsLeadToQuery (max : nat) (ms : N) (w : World) (st : PollState) :
  waitsLeadToQuery (fst (pollOnce max ms w st)).
Proof.
  unfold pollOnce.
  destruct (nonEmpty (pullrequestsWithoutMergeStatus st));
    destruct (getPullRequests w (S (tries st))) as [l | err];
    try destruct (pullRequests st); simpl;
    intros before e after Heq Hw;
    repeat (destruct before as [ | ? before];
            [cbn [app] in Heq; injection Heq; intros; subst;
             try discriminate Hw; eexists; reflexivity
            | cbn [app] in Heq; try discriminate Heq;
              injection Heq as <- Heq]);
    destruct before; discriminate Heq.
Qed.

Lemma pollLoop_waitsLeadToQuery (max : nat) (ms : N) (w : World) :
  forall fuel st, waitsLeadToQuery (fst (pollLoop fuel max ms w st)).
Proof.
  induction fuel as [ | fuel IH]; intros st; cbn [pollLoop];
    destruct (pollAgain max st);
    try (apply waitsLeadToQuery_none; reflexivity).
  rewrite bind_unfold.
  pose proof (pollOnce_waitsLeadToQuery max ms w st) as H1.
  destruct (snd (pollOnce max ms w st)) as [st' | e | ]; cbn [fst];
    try exact H1.
  apply waitsLeadToQuery_app; [exact H1 | apply IH].
Qed.

Lemma runWith_waitsLeadToQuery (max : nat) (ms : N) (w : World) :
  waitsLeadToQuery (fst (runWith max ms w)).
Proof.
  destruct (runWith_phases max ms w) as (rest & -> & Hrest & _).
  apply waitsLeadToQuery_app; [ | apply waitsLeadToQuery_app].
  - apply waitsLeadToQuery_none.
    apply (filter_outside resolveEvent isWait _ (resolveLabel_events w)).
    intros [ | | | | | [ | | | | | ] | ]; simpl; congruence.
  - rewrite pollMergeability_unfold. cbv zeta.
    pose proof (pollLoop_waitsLeadToQuery max ms w (S max) pollStart) as H.
    destruct (snd (pollLoop (S max) max ms w pollStart)) as [st | e | ];
      cbn [fst]; try exact H.
    apply waitsLeadToQuery_app; [exact H | ].
    apply waitsLeadToQuery_none.
    destruct (nonEmpty (pullrequestsWithoutMergeStatus st)); reflexivity.
  - apply waitsLeadToQuery_none.
    apply (filter_outside reconcileEvent isWait _ Hrest).
    intros [ | | | | | | [ | | | | | | | | ] ]; simpl; congruence.
Qed.

(** X1: a run sends at least one and at most [maxRetries] = 60 pull-request
    queries.  It waits [waitMs] = 60000 ms one time fewer than it queries,
    and every wait is directly followed by a query: it waits between two
    consecutive queries and never after the last one. *)
Theorem run_queries_and_waits_bounded (w : World) :
  1 <= fetchCount (fst (run w)) <= maxRetries /\
  filter isWait (fst (run w)) =
    repeat (CallWait waitMs) (fetchCount (fst (run w)) - 1) /\
  waitsLeadToQuery (fst (run w)).
Proof.
  unfold run.
  split; [ | split; [apply runWith_waits | apply runWith_waitsLeadToQuery]].
  rewrite runWith_fetchCount. split.
  - apply (pollMergeability_post maxRetries waitMs w).
  - apply (pollMergeability_fetch_bound maxRetries waitMs w).
Qed.

(** ** When the run is marked failed *)

Lemma pollOnce_reports_only_failures (max : nat) (ms : N) (w : World)
  (st : PollState) (e : Event) :
  In e (fst (pollOnce max ms w st)) -> isSetFailed e = true ->
  exists error, getPullRequests w (S (tries st)) = Rejects error.
Proof.
  unfold pollOnce.
  destruct (nonEmpty (pullrequestsWithoutMergeStatus st));
    destruct (getPullRequests w (S (tries st))) as [l | err];
    try destruct (pullRequests st); simpl; intros Hin Hf;
    try (exists err; reflexivity);
    repeat (destruct Hin as [<- | Hin]; [discriminate Hf | ]); contradiction.
Qed.

Lemma pollLoop_reports_only_failures (max : nat) (ms : N) (w : World)
  (e : Event) :
  forall fuel st,
    In e (fst (pollLoop fuel max ms w st)) -> isSetFailed e = true ->
    exists k error,
      tries st < k <= tries st + fetchCount (fst (pollLoop fuel max ms w st)) /\
      getPullRequests w k = Rejects error.
Proof.
  induction fuel as [ | fuel IH]; intros st; cbn [pollLoop];
    destruct (pollAgain max st); try (simpl; contradiction).
  rewrite bind_unfold.
  pose proof (pollOnce_trace max ms w st) as (Hf1 & _).
  destruct (snd (pollOnce max ms w st)) as [st' | err | ] eqn:Hs; cbn [fst];
    intros Hin Hf.
  - rewrite fetchCount_app, Hf1. apply in_app_or in Hin.
    destruct Hin as [Hin | Hin].
    + destruct (pollOnce_reports_only_failures max ms w st e Hin Hf) as [error Hr].
      exists (S (tries st)), error. split; [lia | exact Hr].
    + destruct (IH st' Hin Hf) as (k & error & Hk & Hr).
      rewrite (pollOnce_tries max ms w st st' Hs) in Hk.
      exists k, error. split; [lia | exact Hr].
  - destruct (pollOnce_reports_only_failures max ms w st e Hin Hf) as [error Hr].
    exists (S (tries st)), error. rewrite Hf1. split; [lia | exact Hr].
  - destruct (pollOnce_reports_only_failures max ms w st e Hin Hf) as [error Hr].
    exists (S (tries st)), error. rewrite Hf1. split; [lia | exact Hr].
Qed.

(** The unresolved pull requests at the end of the loop are the Unknown ones
    of the snapshot the reconciler gets. *)
Lemma final_unknowns (max : nat) (ms : N) (w : World)
  (prs : list IGithubPRNode) :
  finalSnapshotWith max ms w = Some prs ->
  exists st,
    snd (pollLoop (S max) max ms w pollStart) = Returned st /\
    pullRequests st = Some prs /\
    pullrequestsWithoutMergeStatus st = filter (hasMergeable UNKNOWN) prs /\
    (filter (hasMergeable UNKNOWN) prs = [] \/
     max <= fetchCount (fst (pollLoop (S max) max ms w pollStart))).
Proof.
  intros Hs. destruct (finalSnapshotWith_Some _ _ _ _ Hs) as (st & Hst & Hprs).
  pose proof (pollMergeability_post max ms w) as (_ & _ & Hend).
  rewrite Hst in Hend. destruct Hend as (_ & Hp & Hu & Hstop).
  rewrite pollMergeability_fetchCount in Hp, Hu, Hstop.
  rewrite pollMergeability_snd in Hst.
  assert (Hun : unknownAfter w (fetchCount (fst (pollLoop (S max) max ms w pollStart)))
                = filter (hasMergeable UNKNOWN) prs).
  { unfold unknownAfter. rewrite <- Hp, Hprs. reflexivity. }
  exists st. rewrite Hu, <- Hun. repeat split; assumption.
Qed.

Lemma filter_nonempty_In {A} (f : A -> bool) (l : list A) :
  filter f l <> [] <-> exists x, In x l /\ f x = true.
Proof.
  split.
  - intros H. destruct (filter f l) as [ | x r] eqn:E; [congruence | ].
    exists x. apply filter_In. rewrite E. left. reflexivity.
  - intros (x & Hx & Hf) E.
    assert (Hin : In x (filter f l)) by (apply filter_In; split; assumption).
    rewrite E in Hin. contradiction.
Qed.

Lemma hasMergeable_eq (s : MergeableState) (p : IGithubPRNode) :
  hasMergeable s p = true <-> pr_mergeable p = s.
Proof.
  unfold hasMergeable. destruct (pr_mergeable p); destruct s; simpl;
    split; intros H; congruence.
Qed.

Lemma runWith_gives_up_iff (max : nat) (ms : N) (w : World) :
  In (CoreSetFailed CannotDetermineMergeable) (fst (runWith max ms w)) <->
  exists prs p,
    finalSnapshotWith max ms w = Some prs /\ In p prs /\
    pr_mergeable p = UNKNOWN.
Proof.
  destruct (runWith_phases max ms w) as (rest & Ht & Hrest & _).
  rewrite Ht. split.
  - intros Hin. apply in_app_or in Hin. destruct Hin as [Hin | Hin].
    { pose proof (proj1 (Forall_forall _ _) (resolveLabel_events w) _ Hin) as H.
      discriminate H. }
    apply in_app_or in Hin. destruct Hin as [Hin | Hin].
    2:{ pose proof (proj1 (Forall_forall _ _) Hrest _ Hin) as H. discriminate H. }
    rewrite pollMergeability_unfold in Hin. cbv zeta in Hin.
    pose proof (pollLoop_events max ms w (S max) pollStart) as Hloop.
    assert (Hnot : ~ In (CoreSetFailed CannotDetermineMergeable)
                        (fst (pollLoop (S max) max ms w pollStart))).
    { intros H. pose proof (proj1 (Forall_forall _ _) Hloop _ H) as H'.
      discriminate H'. }
    destruct (snd (pollLoop (S max) max ms w pollStart)) as [st | e | ] eqn:Hs;
      cbn [fst] in Hin; try contradiction.
    apply in_app_or in Hin. destruct Hin as [Hin | Hin]; [contradiction | ].
    destruct (nonEmpty (pullrequestsWithoutMergeStatus st)) eqn:Hne;
      [ | contradiction].
    apply nonEmpty_true in Hne.
    pose proof (pollMergeability_post max ms w) as (_ & _ & Hend).
    rewrite pollMergeability_snd, Hs in Hend.
    destruct Hend as (_ & Hp & Hu & _).
    rewrite Hu in Hne. destruct (unknownAfter_snapshot w _ Hne) as [l Hl].
    exists l. unfold unknownAfter in Hne. rewrite Hl in Hne.
    apply filter_nonempty_In in Hne. destruct Hne as (p & Hp' & Hf).
    exists p. split; [ | split; [exact Hp' | apply hasMergeable_eq; exact Hf]].
    unfold finalSnapshotWith. rewrite pollMergeability_snd, Hs, Hp. exact Hl.
  - intros (prs & p & Hs & Hp & Hu).
    destruct (final_unknowns max ms w prs Hs) as (st & Hst & _ & Hun & _).
    apply in_or_app. right. apply in_or_app. left.
    rewrite pollMergeability_unfold. cbv zeta. rewrite Hst. cbn [fst].
    apply in_or_app. right.
    replace (nonEmpty (pullrequestsWithoutMergeStatus st)) with true.
    + left. reflexivity.
    + symmetry. apply nonEmpty_true. rewrite Hun. apply filter_nonempty_In.
      exists p. split; [exact Hp | apply hasMergeable_eq; exact Hu].
Qed.

(** X2: the run reports "Cannot determine mergeable status" exactly when
    the snapshot it ends with still has a pull request whose fact is
    Unknown, and then it has used its whole budget of [maxRetries] = 60
    queries. *)
Theorem run_gives_up_iff_unknown_remains (w : World) :
  (In (CoreSetFailed CannotDetermineMergeable) (fst (run w)) <->
   exists prs p,
     finalSnapshot w = Some prs /\ In p prs /\ pr_mergeable p = UNKNOWN) /\
  (In (CoreSetFailed CannotDetermineMergeable) (fst (run w)) ->
   fetchCount (fst (run w)) = maxRetries).
Proof.
  split; [apply runWith_gives_up_iff | ].
  intros Hin. apply runWith_gives_up_iff in Hin.
  destruct Hin as (prs & p & Hs & Hp & Hu).
  destruct (final_unknowns maxRetries waitMs w prs Hs) as (_ & _ & _ & _ & Hstop).
  assert (Hne : filter (hasMergeable UNKNOWN) prs <> []).
  { apply filter_nonempty_In. exists p.
    split; [exact Hp | apply hasMergeable_eq; exact Hu]. }
  destruct Hstop as [Hnil | Hmax]; [contradiction | ].
  pose proof (pollMergeability_fetch_bound maxRetries waitMs w) as Hle.
  unfold run. rewrite runWith_fetchCount.
  rewrite pollMergeability_fetchCount in *.
  change (Nat.max 1 maxRetries) with maxRetries in Hle. lia.
Qed.

Lemma run_gives_up_iff_unknown_remains_witness :
  fetchCount (fst (run Scenario.stuckWorld)) = maxRetries.
Proof.
  apply (proj2 (run_gives_up_iff_unknown_remains Scenario.stuckWorld)).
  apply (proj2 (proj1 (run_gives_up_iff_unknown_remains Scenario.stuckWorld))).
  exists [Scenario.stuck; Scenario.pr1], Scenario.stuck.
  split; [reflexivity | ]. split; [left; reflexivity | reflexivity].
Defined.

Lemma resolveLabel_failed_iff (w : World) :
  markedFailed (fst (resolveLabel w)) = true <-> conflictLabelOf w = None.
Proof.
  unfold resolveLabel, conflictLabelOf.
  destruct (getLabels w) as [edges | e]; simpl.
  - destruct (findLabelByName (conflictLabelName w) edges); simpl;
      split; intros H; try reflexivity; discriminate H.
  - split; reflexivity.
Qed.

Lemma forEachAsync_not_failed (callback : IGithubPRNode -> list Event * Promise)
  (l : list IGithubPRNode) :
  (forall p, markedFailed (fst (callback p)) = false) ->
  markedFailed (fst (forEachAsync callback l)) = false.
Proof.
  intros Hcb. cbn [forEachAsync fst].
  induction l as [ | p l IH]; [reflexivity | ].
  cbn [flat_map]. rewrite markedFailed_app, Hcb, IH. reflexivity.
Qed.

(** With a label, nothing is reported before the requests settle. *)
Lemma reconcile_found_not_failed (c : IGithubLabelNode)
  (prs : list IGithubPRNode) :
  markedFailed (fst (reconcile (Some c) prs)) = false.
Proof.
  rewrite reconcile_unfold. cbn [fst]. rewrite markedFailed_app.
  unfold labelPass, unlabelPass.
  assert (H1 : forall p, markedFailed (fst (labelCallback (Some c) p)) = false)
    by (intros p; rewrite labelCallback_found; destruct (labelled c p); reflexivity).
  assert (H2 : forall p, markedFailed (fst (unlabelCallback (Some c) p)) = false)
    by (intros p; rewrite unlabelCallback_found; destruct (labelled c p); reflexivity).
  destruct (nonEmpty (pullrequestsWithConflicts prs));
    destruct (nonEmpty (pullrequestsWithConflictResolution prs));
    rewrite ?(forEachAsync_not_failed _ _ H1), ?(forEachAsync_not_failed _ _ H2);
    reflexivity.
Qed.

Lemma runWith_failed_fetch_reported (max : nat) (ms : N) (w : World)
  (k : nat) (error : Error) :
  1 <= k <= fetchCount (fst (runWith max ms w)) ->
  getPullRequests w k = Rejects error ->
  In (CoreSetFailed (GetPullRequestsFailed error)) (fst (runWith max ms w)).
Proof.
  intros Hk Hrej. rewrite runWith_fetchCount in Hk.
  pose proof (pollMergeability_reports_failures max ms w k error Hk Hrej) as Hin.
  destruct (runWith_around_poller max ms w) as (rest & -> & _).
  apply in_or_app. right. apply in_or_app. left. exact Hin.
Qed.

(** X3: when [run] returns, the run is marked failed if and only if the
    conflict label was not resolved (the label query failed or no label has
    the configured name), or one of the pull-request queries it sent failed,
    or the snapshot it ends with has a pull request whose fact is Unknown.
    Nothing else marks it failed at that point. *)
Theorem run_marked_failed_iff (w : World) :
  markedFailed (fst (run w)) = true <->
  conflictLabelOf w = None \/
  (exists k error,
      1 <= k <= fetchCount (fst (run w)) /\
      getPullRequests w k = Rejects error) \/
  (exists prs p,
      finalSnapshot w = Some prs /\ In p prs /\ pr_mergeable p = UNKNOWN).
Proof.
  unfold run, finalSnapshot. split.
  - intros Hfailed. unfold markedFailed in Hfailed.
    apply existsb_exists in Hfailed. destruct Hfailed as (e & Hin & Hf).
    destruct (isGiveUp e) eqn:Hg.
    { right. right. apply runWith_gives_up_iff.
      destruct e as [ | | | | | [ | | | | | ] | ]; try discriminate Hg.
      exact Hin. }
    pose proof (runWith_fetchCount maxRetries waitMs w) as Hcount.
    rewrite pollMergeability_fetchCount in Hcount.
    destruct (runWith_phases maxRetries waitMs w) as (rest & Ht & _ & Hrest).
    rewrite Ht in Hin. apply in_app_or in Hin. destruct Hin as [Hin | Hin].
    { left. apply resolveLabel_failed_iff. apply existsb_exists.
      exists e. split; assumption. }
    apply in_app_or in Hin. destruct Hin as [Hin | Hin].
    + right. left. rewrite pollMergeability_unfold in Hin. cbv zeta in Hin.
      assert (Hloop : In e (fst (pollLoop (S maxRetries) maxRetries waitMs w
                                          pollStart))).
      { destruct (snd (pollLoop (S maxRetries) maxRetries waitMs w pollStart))
          as [st | err | ]; cbn [fst] in Hin; try exact Hin.
        apply in_app_or in Hin. destruct Hin as [Hin | Hin]; [exact Hin | ].
        destruct (nonEmpty (pullrequestsWithoutMergeStatus st));
          [ | contradiction].
        destruct Hin as [<- | []]. discriminate Hg. }
      destruct (pollLoop_reports_only_failures maxRetries waitMs w e
                  (S maxRetries) pollStart Hloop Hf) as (k & error & Hk & Hr).
      exists k, error. cbn [tries pollStart] in Hk. rewrite Hcount.
      split; [lia | exact Hr].
    + destruct Hrest as [-> | (prs & _ & ->)]; [contradiction | ].
      destruct (conflictLabelOf w) as [c | ]; [ | left; reflexivity].
      exfalso. pose proof (reconcile_found_not_failed c prs) as Hno.
      assert (Hyes : markedFailed (fst (reconcile (Some c) prs)) = true)
        by (apply existsb_exists; exists e; split; assumption).
      congruence.
  - intros [Hnone | [(k & error & Hk & Hrej) | Hunknown]].
    + destruct (runWith_starts_with_resolver maxRetries waitMs w) as [rest ->].
      rewrite markedFailed_app.
      rewrite (proj2 (resolveLabel_failed_iff w) Hnone). reflexivity.
    + apply (markedFailed_In _ (GetPullRequestsFailed error)).
      apply (runWith_failed_fetch_reported _ _ _ k); assumption.
    + apply (markedFailed_In _ CannotDetermineMergeable).
      apply runWith_gives_up_iff. exact Hunknown.
Qed.

(** ** The requests of a run *)

(** X4: the add and remove requests of a run are, in this order: one add of
    the resolved label for each Conflicting pull request of the final
    snapshot that does not carry it, in snapshot order; then one remove for
    each Mergeable one that carries it.  Without a resolved label or without
    a snapshot there is none. *)
Theorem run_sends_expected_requests (w : World) :
  mutations (fst (run w)) =
  match conflictLabelOf w, finalSnapshot w with
  | Some c, Some prs => expectedRequests c prs
  | _, _ => []
  end.
Proof.
  unfold run, finalSnapshot. rewrite runWith_mutations.
  destruct (finalSnapshotWith maxRetries waitMs w) as [prs | ];
    destruct (conflictLabelOf w) as [c | ]; try reflexivity.
  - apply reconcile_mutations.
  - apply reconcile_undefined_no_mutation.
Qed.

Lemma targets_mutations (t : list Event) : targets t = targets (mutations t).
Proof.
  induction t as [ | e t IH]; [reflexivity | ].
  destruct e; simpl; rewrite IH; reflexivity.
Qed.

Lemma targets_app (t1 t2 : list Event) :
  targets (t1 ++ t2) = targets t1 ++ targets t2.
Proof. apply flat_map_app. Qed.

Lemma targets_expected (c : IGithubLabelNode) (prs : list IGithubPRNode) :
  targets (expectedRequests c prs) =
  map pr_id (filter (needsLabel c) prs) ++
  map pr_id (filter (needsUnlabel c) prs).
Proof.
  unfold expectedRequests. rewrite targets_app. f_equal.
  - induction (filter (needsLabel c) prs) as [ | p l IH]; [reflexivity | ].
    simpl. rewrite <- IH. reflexivity.
  - induction (filter (needsUnlabel c) prs) as [ | p l IH]; [reflexivity | ].
    simpl. rewrite <- IH. reflexivity.
Qed.

Lemma NoDup_map_filter {A B} (g : A -> B) (f : A -> bool) (l : list A) :
  NoDup (map g l) -> NoDup (map g (filter f l)).
Proof.
  induction l as [ | x l IH]; intros Hnd; [constructor | ].
  simpl in Hnd. inversion Hnd as [ | ? ? Hnotin Hnd']; subst.
  simpl. destruct (f x); [ | apply IH; exact Hnd'].
  simpl. constructor; [ | apply IH; exact Hnd'].
  intros Hin. apply Hnotin. apply in_map_iff in Hin.
  destruct Hin as (y & Hy & Hin). apply filter_In in Hin.
  apply in_map_iff. exists y. split; [exact Hy | apply Hin].
Qed.

(** X5: when the pull requests of the final snapshot have distinct
    identifiers, no pull request is named by two requests of the run: each
    one gets at most one add or remove, never both. *)
Theorem run_sends_at_most_one_request_per_pr (w : World)
  (prs : list IGithubPRNode) :
  finalSnapshot w = Some prs ->
  NoDup (map pr_id prs) ->
  NoDup (targets (fst (run w))).
Proof.
  intros Hs Hnd. unfold run, finalSnapshot in *.
  rewrite targets_mutations, runWith_mutations, Hs.
  destruct (conflictLabelOf w) as [c | ].
  - rewrite reconcile_mutations. fold (expectedRequests c prs).
    rewrite targets_expected. apply NoDup_app.
    + apply NoDup_map_filter. exact Hnd.
    + apply NoDup_map_filter. exact Hnd.
    + intros id Hadd Hremove.
      apply in_map_iff in Hadd. destruct Hadd as (p & Hidp & Hp).
      apply in_map_iff in Hremove. destruct Hremove as (q & Hidq & Hq).
      apply filter_In in Hp. destruct Hp as [Hp Hneeds].
      apply filter_In in Hq. destruct Hq as [Hq Hneedsq].
      assert (q = p) by (apply (unique_id prs p q Hnd Hp Hq); congruence).
      subst q. unfold needsLabel, needsUnlabel, hasMergeable in *.
      destruct (pr_mergeable p); simpl in *; discriminate.
  - rewrite reconcile_undefined_no_mutation. constructor.
Qed.

Lemma run_sends_at_most_one_request_per_pr_witness :
  NoDup (targets (fst (run Scenario.world))).
Proof.
  apply (run_sends_at_most_one_request_per_pr Scenario.world
           [Scenario.pr1; Scenario.pr2; Scenario.pr3] eq_refl).
  repeat constructor; simpl; intuition discriminate.
Defined.

(** ** The order of the phases *)

Lemma filter_outside_of {A} (P : A -> Prop) (f : A -> bool) (t : list A) :
  Forall P t -> (forall e, P e -> f e = false) -> filter f t = [].
Proof.
  intros Hall Hout. induction Hall as [ | e t He _ IH]; [reflexivity | ].
  simpl. rewrite (Hout e He). exact IH.
Qed.

Lemma resolveLabel_head (w : World) :
  exists reports,
    fst (resolveLabel w) = CallGetLabels (conflictLabelName w) :: reports /\
    Forall (fun e => isSetFailed e = true) reports.
Proof.
  unfold resolveLabel.
  destruct (getLabels w) as [edges | e]; simpl.
  - destruct (findLabelByName (conflictLabelName w) edges); simpl;
      eexists; split; try reflexivity; repeat constructor.
  - eexists; split; [reflexivity | repeat constructor].
Qed.

(** Whatever follows a request in the trace of [run] is an event of the
    reconciler. *)
Lemma runWith_after_request (max : nat) (ms : N) (w : World)
  (before after : list Event) (e : Event) :
  fst (runWith max ms w) = before ++ e :: after ->
  isMutation e = true ->
  Forall (fun x => reconcileEvent x = true) after.
Proof.
  intros Heq Hm.
  destruct (runWith_phases max ms w) as (rest & Ht & Hrest & _).
  rewrite Ht, app_assoc in Heq.
  set (early := fst (resolveLabel w) ++ fst (pollMergeability (S max) max ms w))
    in Heq.
  assert (Hearly : mutations early = []).
  { unfold early. rewrite mutations_app, resolveLabel_no_mutation,
      pollMergeability_no_mutation. reflexivity. }
  apply app_eq_app in Heq. destruct Heq as (l & [[Hb Hl] | [Hb Hl]]).
  - destruct l as [ | x l].
    + cbn [app] in Hl. rewrite <- Hl in Hrest.
      inversion Hrest; assumption.
    + cbn [app] in Hl. injection Hl as <- _. exfalso.
      rewrite Hb, mutations_app in Hearly. cbn [mutations filter] in Hearly.
      rewrite Hm in Hearly. destruct (mutations before); discriminate Hearly.
  - rewrite Hl in Hrest. apply Forall_app in Hrest. destruct Hrest as [_ H].
    inversion H; assumption.
Qed.

(** X6: the label query is the first event of a run and the only one of its
    kind; and once the run has sent an add or remove request it sends no
    further query and does not wait again: both passes act on the one
    snapshot the poller ended with. *)
Theorem run_queries_before_it_mutates (w : World) :
  (exists rest,
      fst (run w) = CallGetLabels (conflictLabelName w) :: rest /\
      filter isLabelQuery rest = []) /\
  (forall before e after,
      fst (run w) = before ++ e :: after ->
      isMutation e = true ->
      filter isFetch after = [] /\
      filter isWait after = [] /\
      filter isLabelQuery after = []).
Proof.
  unfold run. split.
  - destruct (runWith_phases maxRetries waitMs w) as (rest & Ht & Hrest & _).
    destruct (resolveLabel_head w) as (reports & Hhead & Hreports).
    rewrite Ht, Hhead. eexists. split; [reflexivity | ].
    rewrite !filter_app.
    rewrite (filter_outside isSetFailed isLabelQuery _ Hreports)
      by (intros [ | | | | | | ]; simpl; congruence).
    rewrite (filter_outside_of _ isLabelQuery _
               (pollMergeability_events (S maxRetries) maxRetries waitMs w))
      by (intros [ | | | | | | ]; simpl; intros [H | H]; congruence).
    rewrite (filter_outside reconcileEvent isLabelQuery _ Hrest)
      by (intros [ | | | | | | ]; simpl; congruence).
    reflexivity.
  - intros before e after Heq Hm.
    pose proof (runWith_after_request _ _ _ _ _ _ Heq Hm) as Hafter.
    repeat split.
    + apply (filter_outside reconcileEvent isFetch _ Hafter).
      intros [ | | | | | | ]; simpl; congruence.
    + apply (filter_outside reconcileEvent isWait _ Hafter).
      intros [ | | | | | | ]; simpl; congruence.
    + apply (filter_outside reconcileEvent isLabelQuery _ Hafter).
      intros [ | | | | | | ]; simpl; congruence.
Qed.

Lemma run_queries_before_it_mutates_witness :
  filter isFetch [CoreDebug NoResolvedConflicts] = [] /\
  filter isWait [CoreDebug NoResolvedConflicts] = [] /\
  filter isLabelQuery [CoreDebug NoResolvedConflicts] = [].
Proof.
  apply (proj2 (run_queries_before_it_mutates Scenario.flakyWorld)
           [CallGetLabels "has conflicts"; CallGetPullRequests;
            CoreDebug (WaitingForMergeable 2 60); CallWait 60000;
            CallGetPullRequests;
            CoreSetFailed (GetPullRequestsFailed TransportError);
            CoreDebug (WaitingForMergeable 3 60); CallWait 60000;
            CallGetPullRequests; CoreDebug (Labeling 1)]
           (CallAddLabels (mkMutation "L1" "1"))
           [CoreDebug NoResolvedConflicts]);
    reflexivity.
Defined.

(** ** A failed first query *)

Lemma pollLoop_first_rejected (fuel max : nat) (ms : N) (w : World)
  (error : Error) :
  getPullRequests w 1 = Rejects error ->
  pollLoop (S fuel) max ms w pollStart =
  ([CallGetPullRequests; CoreSetFailed (GetPullRequestsFailed error)],
   Thrown TypeError_pullRequests).
Proof.
  intros Hrej. cbn [pollLoop].
  replace (pollAgain max pollStart) with true
    by (unfold pollAgain; cbn [tries pollStart Nat.eqb]; symmetry; apply orb_true_r).
  unfold pollOnce. cbn [tries pollStart pullrequestsWithoutMergeStatus pullRequests].
  rewrite Hrej. reflexivity.
Qed.

(** X7: if the first pull-request query fails, the run reports it and ends
    right there with the TypeError of the snapshot that never arrived: it
    sends no second query, does not wait, enters neither pass and sends no
    request. *)
Theorem first_query_failure_ends_run (w : World) (error : Error) :
  getPullRequests w 1 = Rejects error ->
  run w =
  (fst (resolveLabel w) ++
   [CallGetPullRequests; CoreSetFailed (GetPullRequestsFailed error)],
   Thrown TypeError_pullRequests).
Proof.
  intros Hrej. unfold run. rewrite runWith_unfold. cbv zeta.
  rewrite pollMergeability_unfold. cbv zeta.
  rewrite (pollLoop_first_rejected maxRetries maxRetries waitMs w error Hrej).
  reflexivity.
Qed.

Lemma first_query_failure_ends_run_witness :
  run unreachableWorld =
  ([CallGetLabels "has conflicts"; CallGetPullRequests;
    CoreSetFailed (GetPullRequestsFailed TransportError)],
   Thrown TypeError_pullRequests).
Proof.
  apply (first_query_failure_ends_run unreachableWorld TransportError).
  reflexivity.
Defined.

(** ** After the requests have settled *)

Lemma existsb_Permutation {A} (f : A -> bool) (l l' : list A) :
  Permutation l l' -> existsb f l = existsb f l'.
Proof.
  induction 1 as [ | x l l' _ IH | x y l | l l' l'' _ IH1 _ IH2]; simpl.
  - reflexivity.
  - rewrite IH. reflexivity.
  - destruct (f x); destruct (f y); reflexivity.
  - rewrite IH1. exact IH2.
Qed.

Lemma settle_markedFailed (w : World) (a : Awaited) :
  markedFailed (settle w a) = settleFails w a.
Proof.
  destruct a as [n m | n m]; simpl.
  - destruct (addLabelsToLabelable w m); reflexivity.
  - destruct (removeLabelsFromLabelable w m); reflexivity.
Qed.

Lemma settled_markedFailed (w : World) (order : list Awaited) :
  markedFailed (flat_map (settle w) order) = existsb (settleFails w) order.
Proof.
  induction order as [ | a order IH]; [reflexivity | ].
  cbn [flat_map existsb]. rewrite markedFailed_app, settle_markedFailed, IH.
  reflexivity.
Qed.

(** X8: once the requests of a run have settled, the process is marked
    failed if and only if it was already marked failed when [run] returned
    or one of the requests failed; this does not depend on the order in
    which the requests settle; and each callback adds exactly one event
    when it resumes, its "labeled"/"unlabeled" line or its failure
    report. *)
Theorem process_status_after_settling (w : World) (order order' : list Awaited) :
  Permutation order order' ->
  markedFailed (processTrace w (run w) order) =
    markedFailed (fst (run w)) || existsb (settleFails w) order /\
  markedFailed (processTrace w (run w) order) =
    markedFailed (processTrace w (run w) order') /\
  List.length (flat_map (settle w) order) = List.length order.
Proof.
  intros Hperm. unfold processTrace.
  rewrite !markedFailed_app, !settled_markedFailed.
  split; [reflexivity | ]. split.
  - rewrite (existsb_Permutation (settleFails w) order order' Hperm).
    reflexivity.
  - clear Hperm. induction order as [ | a order IH]; [reflexivity | ].
    cbn [flat_map]. rewrite length_app, IH.
    destruct a as [n m | n m]; simpl.
    + destruct (addLabelsToLabelable w m); reflexivity.
    + destruct (removeLabelsFromLabelable w m); reflexivity.
Qed.

Lemma process_status_after_settling_witness :
  markedFailed
    (processTrace Scenario.failingAddWorld (run Scenario.failingAddWorld)
       [AwaitAddLabels 1 (mkMutation "L1" "1");
        AwaitAddLabels 5 (mkMutation "L1" "5")]) =
  markedFailed
    (processTrace Scenario.failingAddWorld (run Scenario.failingAddWorld)
       [AwaitAddLabels 5 (mkMutation "L1" "5");
        AwaitAddLabels 1 (mkMutation "L1" "1")]).
Proof.
  apply (process_status_after_settling Scenario.failingAddWorld
           [AwaitAddLabels 1 (mkMutation "L1" "1");
            AwaitAddLabels 5 (mkMutation "L1" "5")]
           [AwaitAddLabels 5 (mkMutation "L1" "5");
            AwaitAddLabels 1 (mkMutation "L1" "1")]
           (perm_swap _ _ [])).
Defined.

(** ** What [run] has not seen when it returns *)

Lemma runWith_events (max : nat) (ms : N) (w : World) (e : Event) :
  In e (fst (runWith max ms w)) ->
  resolveEvent e = true \/ pollEvent e = true \/ isGiveUp e = true \/
  reconcileEvent e = true.
Proof.
  destruct (runWith_phases max ms w) as (rest & -> & Hrest & _).
  intros Hin. apply in_app_or in Hin. destruct Hin as [Hin | Hin].
  - left. apply (proj1 (Forall_forall _ _) (resolveLabel_events w) _ Hin).
  - apply in_app_or in Hin. destruct Hin as [Hin | Hin].
    + right.
      destruct (proj1 (Forall_forall _ _)
                  (pollMergeability_events (S max) max ms w) _ Hin) as [H | H].
      * left. exact H.
      * right. left. exact H.
    + right. right. right. apply (proj1 (Forall_forall _ _) Hrest _ Hin).
Qed.

(** X9: when [run] returns, every add and remove request it has sent is
    still in flight, in the order it was sent, and nothing in its trace
    tells how any of them ended: no "labeled" or "unlabeled" line, and no
    failure report of a request other than the TypeError of a missing
    label. *)
Theorem run_returns_before_requests_settle (w : World) (t : list Event)
  (promises : list Promise) :
  run w = (t, Returned promises) ->
  mutations t = map requestOf (inFlight promises) /\
  (forall number,
      ~ In (CoreDebug (Labeled number)) t /\
      ~ In (CoreDebug (Unlabeled number)) t) /\
  (forall error,
      error <> TypeError_conflictLabel ->
      ~ In (CoreSetFailed (AddLabelsFailed error)) t /\
      ~ In (CoreSetFailed (RemoveLabelsFailed error)) t).
Proof.
  intros Hrun. split; [apply (run_requests_in_flight w t promises Hrun) | ].
  assert (Ht : t = fst (runWith maxRetries waitMs w))
    by (unfold run in Hrun; rewrite Hrun; reflexivity).
  split.
  - intros number. split; intros Hin; rewrite Ht in Hin;
      destruct (runWith_events _ _ _ _ Hin) as [H | [H | [H | H]]];
      discriminate H.
  - intros error Hne. split; intros Hin; rewrite Ht in Hin;
      destruct (runWith_events _ _ _ _ Hin) as [H | [H | [H | H]]];
      try discriminate H; destruct error; try discriminate H; congruence.
Qed.

Lemma run_returns_before_requests_settle_witness :
  mutations (fst (run Scenario.failingAddWorld)) =
  map requestOf [AwaitAddLabels 1 (mkMutation "L1" "1");
                 AwaitAddLabels 5 (mkMutation "L1" "5")].
Proof.
  apply (proj1 (run_returns_before_requests_settle Scenario.failingAddWorld
                  (fst (run Scenario.failingAddWorld))
                  [Suspended (AwaitAddLabels 1 (mkMutation "L1" "1"));
                   Suspended (AwaitAddLabels 5 (mkMutation "L1" "5"))]
                  eq_refl)).
Defined.

(** ** Callbacks that end in an exception *)

Lemma repeat_app_same {A} (x : A) (n m : nat) :
  repeat x n ++ repeat x m = repeat x (n + m).
Proof. induction n as [ | n IH]; simpl; [ | rewrite IH]; reflexivity. Qed.

Lemma callbacks_found_no_rejection (c : IGithubLabelNode)
  (l l' : list IGithubPRNode) :
  unhandledRejections
    (map (fun p => snd (labelCallback (Some c) p)) l ++
     map (fun p => snd (unlabelCallback (Some c) p)) l') = [].
Proof.
  unfold unhandledRejections. rewrite flat_map_app.
  assert (H1 : flat_map (fun p => match p with RejectedWith e => [e] | _ => [] end)
                        (map (fun p => snd (labelCallback (Some c) p)) l) = []).
  { induction l as [ | p l IH]; [reflexivity | ].
    cbn [map flat_map]. rewrite IH, labelCallback_found.
    destruct (labelled c p); reflexivity. }
  assert (H2 : flat_map (fun p => match p with RejectedWith e => [e] | _ => [] end)
                        (map (fun p => snd (unlabelCallback (Some c) p)) l') = []).
  { induction l' as [ | p l' IH]; [reflexivity | ].
    cbn [map flat_map]. rewrite IH, unlabelCallback_found.
    destruct (labelled c p); reflexivity. }
  rewrite H1, H2. reflexivity.
Qed.

Lemma callbacks_undefined_rejections (prs : list IGithubPRNode) :
  unhandledRejections
    (map (fun p => snd (labelCallback None p)) (pullrequestsWithConflicts prs) ++
     map (fun p => snd (unlabelCallback None p))
         (pullrequestsWithConflictResolution prs)) =
  repeat TypeError_conflictLabel (List.length (filter knownWithLabels prs)).
Proof.
  unfold unhandledRejections. rewrite flat_map_app.
  set (rej := fun p => match p with RejectedWith e => [e] | _ => [] end).
  assert (H1 : forall l,
             flat_map rej (map (fun p => snd (labelCallback None p)) l) =
             repeat TypeError_conflictLabel
                    (List.length (filter (fun p => nonEmpty (pr_labels p)) l))).
  { induction l as [ | p l IH]; [reflexivity | ].
    cbn [map flat_map filter]. rewrite IH. unfold labelCallback.
    destruct (pr_labels p); reflexivity. }
  assert (H2 : forall l,
             flat_map rej (map (fun p => snd (unlabelCallback None p)) l) =
             repeat TypeError_conflictLabel
                    (List.length (filter (fun p => nonEmpty (pr_labels p)) l))).
  { induction l as [ | p l IH]; [reflexivity | ].
    cbn [map flat_map filter]. rewrite IH. unfold unlabelCallback.
    destruct (pr_labels p); reflexivity. }
  rewrite H1, H2, repeat_app_same. f_equal.
  unfold pullrequestsWithConflicts, pullrequestsWithConflictResolution,
    knownWithLabels, hasMergeable.
  induction prs as [ | p prs IH]; [reflexivity | ].
  cbn [filter]. destruct (pr_mergeable p); cbn [MergeableState_eqb negb andb];
    cbn [filter]; destruct (nonEmpty (pr_labels p)); cbn [List.length];
    rewrite <- IH; lia.
Qed.

(** X10: no callback of a run ends in an uncaught exception when the
    conflict label was resolved.  When it was not, the callbacks that do
    are exactly those of the pull requests of the final snapshot that have
    a known fact and carry at least one label, each with the TypeError of
    the undefined label, and no request is in flight when [run] returns. *)
Theorem callbacks_reject_only_without_label (w : World) (t : list Event)
  (promises : list Promise) (prs : list IGithubPRNode) :
  run w = (t, Returned promises) ->
  finalSnapshot w = Some prs ->
  (conflictLabelOf w <> None -> unhandledRejections promises = []) /\
  (conflictLabelOf w = None ->
   unhandledRejections promises =
     repeat TypeError_conflictLabel (List.length (filter knownWithLabels prs)) /\
   inFlight promises = []).
Proof.
  intros Hrun Hs.
  pose proof (run_requests_in_flight w t promises Hrun) as Hfl.
  unfold run, finalSnapshot in *.
  rewrite (runWith_reconciles _ _ _ _ Hs), reconcile_unfold in Hrun.
  injection Hrun as Ht <-. split.
  - intros Hsome. destruct (conflictLabelOf w) as [c | ]; [ | congruence].
    apply callbacks_found_no_rejection.
  - intros Hnone. rewrite Hnone. split; [apply callbacks_undefined_rejections | ].
    rewrite Hnone in Hfl.
    assert (Hm : mutations t = []).
    { rewrite <- Ht, !mutations_app, resolveLabel_no_mutation,
        pollMergeability_no_mutation.
      pose proof (reconcile_undefined_no_mutation prs) as H.
      rewrite reconcile_unfold in H. cbn [fst] in H.
      rewrite mutations_app in H. rewrite Hnone. exact H. }
    rewrite Hm in Hfl. symmetry in Hfl. apply map_eq_nil in Hfl. exact Hfl.
Qed.

Lemma callbacks_reject_only_without_label_witness :
  unhandledRejections
    [Fulfilled; RejectedWith TypeError_conflictLabel;
     RejectedWith TypeError_conflictLabel] =
  repeat TypeError_conflictLabel
         (List.length (filter knownWithLabels
                              [Scenario.pr1; Scenario.pr2; Scenario.pr3])) /\
  inFlight [Fulfilled; RejectedWith TypeError_conflictLabel;
            RejectedWith TypeError_conflictLabel] = [].
Proof.
  apply (proj2 (callbacks_reject_only_without_label Scenario.noLabelWorld
                  (fst (run Scenario.noLabelWorld))
                  [Fulfilled; RejectedWith TypeError_conflictLabel;
                   RejectedWith TypeError_conflictLabel]
                  [Scenario.pr1; Scenario.pr2; Scenario.pr3]
                  eq_refl eq_refl)).
  reflexivity.
Defined.

(** ** What a request can name *)

(** The reconciler works on the reply to the latest query that did not
    fail. *)
Lemma finalSnapshotWith_latest (max : nat) (ms : N) (w : World) :
  finalSnapshotWith max ms w =
  snapshotAfter w (fetchCount (fst (runWith max ms w))).
Proof.
  rewrite runWith_fetchCount. unfold finalSnapshotWith.
  pose proof (pollMergeability_post max ms w) as (_ & _ & Hend).
  destruct (snd (pollMergeability (S max) max ms w)) as [st | e | ];
    [ | | contradiction].
  - apply Hend.
  - destruct Hend as (_ & -> & error & Hrej). cbn [snapshotAfter].
    rewrite Hrej. reflexivity.
Qed.

(** X11: a run only ever adds or removes the label it resolved, the one
    whose name is exactly the configured name, and only on pull requests of
    the reply to its latest pull-request query that did not fail: an add
    names a pull request that is Conflicting there and lacks the label, a
    remove one that is Mergeable there and carries it.  Earlier replies
    play no part. *)
Theorem run_requests_name_label_and_latest_snapshot (w : World) (m : Mutation) :
  (In (CallAddLabels m) (fst (run w)) ->
   exists c prs p,
     conflictLabelOf w = Some c /\
     label_name c = conflictLabelName w /\
     snapshotAfter w (fetchCount (fst (run w))) = Some prs /\
     In p prs /\
     m = mkMutation (label_id c) (pr_id p) /\
     pr_mergeable p = CONFLICTING /\ labelled c p = false) /\
  (In (CallRemoveLabels m) (fst (run w)) ->
   exists c prs p,
     conflictLabelOf w = Some c /\
     label_name c = conflictLabelName w /\
     snapshotAfter w (fetchCount (fst (run w))) = Some prs /\
     In p prs /\
     m = mkMutation (label_id c) (pr_id p) /\
     pr_mergeable p = MERGEABLE /\ labelled c p = true).
Proof.
  assert (Hname : forall c, conflictLabelOf w = Some c ->
                            label_name c = conflictLabelName w).
  { intros c Hc. unfold conflictLabelOf in Hc.
    destruct (getLabels w) as [edges | e]; [ | discriminate Hc].
    apply findLabelByName_first in Hc. destruct Hc as (_ & _ & _ & Hn & _).
    exact Hn. }
  assert (Hsent : forall e, isMutation e = true -> In e (fst (run w)) ->
                            exists c prs,
                              conflictLabelOf w = Some c /\
                              snapshotAfter w (fetchCount (fst (run w))) = Some prs /\
                              In e (expectedRequests c prs)).
  { intros e He Hin.
    assert (Hm : In e (mutations (fst (run w))))
      by (apply filter_In; split; assumption).
    unfold run in *. rewrite runWith_mutations in Hm.
    rewrite <- finalSnapshotWith_latest.
    destruct (finalSnapshotWith maxRetries waitMs w) as [prs | ];
      [ | contradiction].
    destruct (conflictLabelOf w) as [c | ].
    - rewrite reconcile_mutations in Hm. exists c, prs. repeat split. exact Hm.
    - rewrite reconcile_undefined_no_mutation in Hm. contradiction. }
  split; intros Hin.
  - destruct (Hsent (CallAddLabels m) eq_refl Hin) as (c & prs & Hc & Hs & He).
    unfold expectedRequests in He. apply in_app_or in He.
    destruct He as [He | He]; apply in_map_iff in He;
      destruct He as (p & Hp & Hf); [ | discriminate Hp].
    injection Hp as <-. apply filter_In in Hf. destruct Hf as [Hf Hneeds].
    unfold needsLabel in Hneeds. apply andb_true_iff in Hneeds.
    destruct Hneeds as [Hfact Hlab].
    exists c, prs, p. repeat split; try assumption.
    + apply Hname. exact Hc.
    + apply hasMergeable_eq. exact Hfact.
    + apply negb_true_iff. exact Hlab.
  - destruct (Hsent (CallRemoveLabels m) eq_refl Hin)
      as (c & prs & Hc & Hs & He).
    unfold expectedRequests in He. apply in_app_or in He.
    destruct He as [He | He]; apply in_map_iff in He;
      destruct He as (p & Hp & Hf); [discriminate Hp | ].
    injection Hp as <-. apply filter_In in Hf. destruct Hf as [Hf Hneeds].
    unfold needsUnlabel in Hneeds. apply andb_true_iff in Hneeds.
    destruct Hneeds as [Hfact Hlab].
    exists c, prs, p. repeat split; try assumption.
    + apply Hname. exact Hc.
    + apply hasMergeable_eq. exact Hfact.
Qed.

Lemma run_requests_name_label_and_latest_snapshot_witness :
  exists c prs p,
    conflictLabelOf Scenario.flakyWorld = Some c /\
    label_name c = conflictLabelName Scenario.flakyWorld /\
    snapshotAfter Scenario.flakyWorld
                  (fetchCount (fst (run Scenario.flakyWorld))) = Some prs /\
    In p prs /\
    mkMutation "L1" "1" = mkMutation (label_id c) (pr_id p) /\
    pr_mergeable p = CONFLICTING /\ labelled c p = false.
Proof.
  apply (proj1 (run_requests_name_label_and_latest_snapshot
                  Scenario.flakyWorld (mkMutation "L1" "1"))).
  vm_compute. tauto.
Defined.
